(** * Merkle tree (question2.py, question3.py, question5.py, question6.py)

    A shallow embedding of the [MerkleTree] class and the properties of
    its hashing, construction, proofs, update and integrity check.

    Conventions of the embedding.
    - A Python [str] is a [string]: the sequence of its UTF-8 code units,
      so that [data.encode('utf-8')] is the identity on the representation
      (text with lone surrogates, on which [encode] raises, has no
      representation).  A [bytes] value is a [string] too, under its own
      constructor of [pyval].
    - A Python [int] used as an index is a [Z]; list lengths are [nat].
    - A raised exception is the [Raise] constructor of [result].
    - [hashlib.sha256] is the function of FIPS 180-4, written out below so
      that closed terms evaluate to the digests the program prints.
    - The four files hold the same class, with [check_integrity] in
      question3.py only, [update_leaf] in question5.py and question6.py,
      and the [dict] branch of [_hash_data] in question6.py; the printing
      methods and [find_sibling] play no part below and are left out. *)

From Stdlib Require Import String Ascii.
From Stdlib Require Import List ZArith Bool Lia Arith DecimalString.
From Stdlib Require Import Permutation Sorted.
From Equations Require Import Equations.
Import ListNotations.

(** ** Exceptions *)

Inductive exn : Type :=
| IndexError
| TypeError.

Inductive result (A : Type) : Type :=
| Ok (a : A)
| Raise (e : exn).

Arguments Ok {A} a.
Arguments Raise {A} e.

Definition bind {A B : Type} (m : result A) (k : A -> result B) : result B :=
  match m with
  | Ok a => k a
  | Raise e => Raise e
  end.

Notation "x <- m ;; k" := (bind m (fun x => k))
  (at level 61, m at next level, right associativity).

Fixpoint mapM {A B : Type} (f : A -> result B) (l : list A) : result (list B) :=
  match l with
  | [] => Ok []
  | a :: l' => b <- f a ;; bs <- mapM f l' ;; Ok (b :: bs)
  end.

(** ** SHA-256 (what [hashlib.sha256(data).hexdigest()] computes) *)

Module SHA256.
Local Open Scope Z_scope.

Definition wrap (x : Z) : Z := x mod 4294967296.
Definition add32 (x y : Z) : Z := wrap (x + y).
Definition rotr (n x : Z) : Z :=
  Z.lor (Z.shiftr x n) (wrap (Z.shiftl x (32 - n))).
Definition not32 (x : Z) : Z := Z.lxor x 4294967295.

Definition Ch (x y z : Z) : Z := Z.lxor (Z.land x y) (Z.land (not32 x) z).
Definition Maj (x y z : Z) : Z :=
  Z.lxor (Z.lxor (Z.land x y) (Z.land x z)) (Z.land y z).
Definition bsig0 (x : Z) : Z := Z.lxor (Z.lxor (rotr 2 x) (rotr 13 x)) (rotr 22 x).
Definition bsig1 (x : Z) : Z := Z.lxor (Z.lxor (rotr 6 x) (rotr 11 x)) (rotr 25 x).
Definition ssig0 (x : Z) : Z := Z.lxor (Z.lxor (rotr 7 x) (rotr 18 x)) (Z.shiftr x 3).
Definition ssig1 (x : Z) : Z := Z.lxor (Z.lxor (rotr 17 x) (rotr 19 x)) (Z.shiftr x 10).

(** The round constants are the first 32 bits of the fractional parts of
    the cube roots of the first 64 primes, the initial hash value those of
    the square roots of the first 8: they are computed here from that
    definition. *)
Definition primes64 : list Z :=
  [ 2; 3; 5; 7; 11; 13; 17; 19; 23; 29; 31; 37; 41; 43; 47; 53;
    59; 61; 67; 71; 73; 79; 83; 89; 97; 101; 103; 107; 109; 113; 127; 131;
    137; 139; 149; 151; 157; 163; 167; 173; 179; 181; 191; 193; 197; 199; 211; 223;
    227; 229; 233; 239; 241; 251; 257; 263; 269; 271; 277; 281; 283; 293; 307; 311 ].

(** The integer cube root of [x], one bit at a time from bit [n - 1] down. *)
Fixpoint cube_root (n : nat) (x acc : Z) : Z :=
  match n with
  | O => acc
  | S n' =>
      let c := acc + 2 ^ Z.of_nat n' in
      if c * c * c <=? x then cube_root n' x c else cube_root n' x acc
  end.

Definition K : list Z :=
  Eval vm_compute in map (fun p => wrap (cube_root 36 (p * 2 ^ 96) 0)) primes64.

Definition H0 : list Z :=
  Eval vm_compute in map (fun p => wrap (Z.sqrt (p * 2 ^ 64))) (firstn 8 primes64).

(** Big-endian bytes of a [n]-byte quantity. *)
Fixpoint be_bytes (n : nat) (x : Z) : list Z :=
  match n with
  | O => []
  | S n' => (Z.shiftr x (8 * Z.of_nat n')) mod 256 :: be_bytes n' x
  end.

(** Padding: a [0x80] byte, zeros up to 56 modulo 64, the bit length on
    eight bytes. *)
Definition pad (msg : list Z) : list Z :=
  let len := Z.of_nat (length msg) in
  msg ++ [128] ++ repeat 0 (Z.to_nat ((55 - len) mod 64)) ++ be_bytes 8 (8 * len).

Fixpoint words (fuel : nat) (bs : list Z) : list Z :=
  match fuel, bs with
  | S fuel', b0 :: b1 :: b2 :: b3 :: rest =>
      (b0 * 16777216 + b1 * 65536 + b2 * 256 + b3) :: words fuel' rest
  | _, _ => []
  end.

(** The working variables [a..h] as a list of eight words; one round with
    constant [k] and schedule word [w]. *)
Definition round (st : list Z) (k w : Z) : list Z :=
  match st with
  | [a; b; c; d; e; f; g; h] =>
      let t1 := add32 (add32 (add32 (add32 h (bsig1 e)) (Ch e f g)) k) w in
      let t2 := add32 (bsig0 a) (Maj a b c) in
      [add32 t1 t2; a; b; c; add32 d t1; e; f; g]
  | _ => st
  end.

(** The message schedule is kept as a window of sixteen words
    [W(t) .. W(t+15)]; sliding it appends [W(t+16)]. *)
Definition slide (win : list Z) : list Z :=
  let w0 := nth 0 win 0 in
  let w1 := nth 1 win 0 in
  let w9 := nth 9 win 0 in
  let w14 := nth 14 win 0 in
  tl win ++ [add32 (add32 (add32 (ssig1 w14) w9) (ssig0 w1)) w0].

Fixpoint rounds (ks : list Z) (win st : list Z) : list Z :=
  match ks with
  | [] => st
  | k :: ks' => rounds ks' (slide win) (round st k (nth 0 win 0))
  end.

Fixpoint add_words (xs ys : list Z) : list Z :=
  match xs, ys with
  | x :: xs', y :: ys' => add32 x y :: add_words xs' ys'
  | _, _ => []
  end.

Definition compress (h : list Z) (block : list Z) : list Z :=
  add_words h (rounds K block h).

Fixpoint blocks (fuel : nat) (ws : list Z) (h : list Z) : list Z :=
  match fuel with
  | O => h
  | S fuel' =>
      match ws with
      | [] => h
      | _ => blocks fuel' (skipn 16 ws) (compress h (firstn 16 ws))
      end
  end.

(** The digest, as its 32 bytes. *)
Definition digest (msg : list Z) : list Z :=
  let padded := pad msg in
  let ws := words (length padded) padded in
  flat_map (be_bytes 4) (blocks (length ws) ws H0).

Definition hex_digit (d : Z) : ascii :=
  ascii_of_N (Z.to_N (if d <? 10 then 48 + d else 87 + d)).

Fixpoint hex (bs : list Z) : string :=
  match bs with
  | [] => EmptyString
  | b :: bs' => String (hex_digit (b / 16)) (String (hex_digit (b mod 16)) (hex bs'))
  end.

Definition bytes_of_string (s : string) : list Z :=
  map (fun c => Z.of_N (N_of_ascii c)) (list_ascii_of_string s).

(** [hashlib.sha256(b).hexdigest()] for the byte string [b]. *)
Definition hexdigest (b : string) : string := hex (digest (bytes_of_string b)).
End SHA256.

(** ** Python values reaching [_hash_data] *)

(** The scalar values of a record.  A float is kept as the text that
    [json.dumps] prints for it ([float.__repr__], or [NaN], [Infinity],
    [-Infinity]): the formatting of floating-point numbers is outside the
    embedding. *)
Inductive jval : Type :=
| JNull
| JBool (b : bool)
| JInt (n : Z)
| JFloat (repr : string)
| JStr (s : string).

(** A [dict] with [str] keys, as the list of its items in insertion order.
    The keys of a Python dict are pairwise distinct: statements about
    dicts assume [NoDup (map fst d)]. *)
Definition pydict : Type := list (string * jval).

Inductive pyval : Type :=
| PNone
| PStr (s : string)
| PBytes (b : string)
| PDict (d : pydict).

(** ** [json.dumps(data, sort_keys=True)] on records *)

Module JSON.
Local Open Scope Z_scope.

Definition dquote : string := String "034"%char EmptyString.

(** The code points of a [str], from its UTF-8 code units. *)
Fixpoint code_points (bs : list Z) : list Z :=
  match bs with
  | [] => []
  | b0 :: r0 =>
      if b0 <? 0x80 then b0 :: code_points r0
      else
        match r0 with
        | [] => [b0]
        | b1 :: r1 =>
            if b0 <? 0xE0 then
              Z.lor (Z.shiftl (Z.land b0 0x1F) 6) (Z.land b1 0x3F) :: code_points r1
            else
              match r1 with
              | [] => [b0]
              | b2 :: r2 =>
                  if b0 <? 0xF0 then
                    Z.lor (Z.shiftl (Z.land b0 0x0F) 12)
                      (Z.lor (Z.shiftl (Z.land b1 0x3F) 6) (Z.land b2 0x3F))
                    :: code_points r2
                  else
                    match r2 with
                    | [] => [b0]
                    | b3 :: r3 =>
                        Z.lor (Z.shiftl (Z.land b0 0x07) 18)
                          (Z.lor (Z.shiftl (Z.land b1 0x3F) 12)
                             (Z.lor (Z.shiftl (Z.land b2 0x3F) 6) (Z.land b3 0x3F)))
                        :: code_points r3
                    end
              end
        end
  end.

(** [u] followed by four lowercase hexadecimal digits, after a backslash. *)
Definition uescape (n : Z) : string :=
  ("\u" ++ SHA256.hex [n / 256 mod 256; n mod 256])%string.

(** [py_encode_basestring_ascii]: one code point ([ensure_ascii] is on by
    default, so everything outside [' '..'~'] is escaped). *)
Definition escape (c : Z) : string :=
  if c =? 0x22 then ("\" ++ dquote)%string
  else if c =? 0x5C then "\\"%string
  else if c =? 0x0A then "\n"%string
  else if c =? 0x0D then "\r"%string
  else if c =? 0x09 then "\t"%string
  else if c =? 0x0C then "\f"%string
  else if c =? 0x08 then "\b"%string
  else if (0x20 <=? c) && (c <=? 0x7E) then String (ascii_of_N (Z.to_N c)) EmptyString
  else if c <? 0x10000 then uescape c
  else
    let n := c - 0x10000 in
    (uescape (Z.lor 0xD800 (Z.land (Z.shiftr n 10) 0x3FF))
     ++ uescape (Z.lor 0xDC00 (Z.land n 0x3FF)))%string.

Definition encode_str (s : string) : string :=
  (dquote ++ String.concat EmptyString (map escape (code_points (SHA256.bytes_of_string s)))
     ++ dquote)%string.

Definition encode_value (v : jval) : string :=
  match v with
  | JNull => "null"%string
  | JBool true => "true"%string
  | JBool false => "false"%string
  | JInt n => NilZero.string_of_int (Z.to_int n)
  | JFloat repr => repr
  | JStr s => encode_str s
  end.

(** [sort_keys=True]: the items are sorted by key ([str] comparison is by
    code point, which on UTF-8 code units is the byte-wise order).  The
    sort is stable; with the distinct keys of a dict no two items compare
    equal. *)
Fixpoint insert (kv : string * jval) (l : pydict) : pydict :=
  match l with
  | [] => [kv]
  | kv' :: l' =>
      if String.leb (fst kv) (fst kv') then kv :: l else kv' :: insert kv l'
  end.

Fixpoint sort_items (d : pydict) : pydict :=
  match d with
  | [] => []
  | kv :: d' => insert kv (sort_items d')
  end.

Definition encode_item (kv : string * jval) : string :=
  (encode_str (fst kv) ++ ": " ++ encode_value (snd kv))%string.

(** The default separators are [', '] and [': ']. *)
Definition dumps (d : pydict) : string :=
  ("{" ++ String.concat ", " (map encode_item (sort_items d)) ++ "}")%string.
End JSON.

(** ** The class [MerkleTree] *)

(** [_hash_data] of question2.py, question3.py and question5.py: a [str] is
    encoded, [bytes] are hashed as they are, and [hashlib.sha256] raises
    [TypeError] on anything else. *)
Definition _hash_data (data : pyval) : result string :=
  match data with
  | PStr s => Ok (SHA256.hexdigest s)
  | PBytes b => Ok (SHA256.hexdigest b)
  | PNone => Raise TypeError
  | PDict _ => Raise TypeError
  end.

(** [_hash_data] of question6.py: a [dict] is first dumped to JSON with
    sorted keys. *)
Module Question6.
Definition _hash_data (data : pyval) : result string :=
  match data with
  | PDict d => Ok (SHA256.hexdigest (JSON.dumps d))
  | PStr s => Ok (SHA256.hexdigest s)
  | PBytes b => Ok (SHA256.hexdigest b)
  | PNone => Raise TypeError
  end.
End Question6.

(** [self._hash_data(s)] for a [str] [s]; this is how the builder and the
    verifier call it, and on a [str] it never raises. *)
Definition hash_str (s : string) : string := SHA256.hexdigest s.

(** The object: [self.leaves] and [self.tree].  After [__init__] and after
    [update_leaf], [self.tree[0]] is the very list [self.leaves]. *)
Record MerkleTree : Type := mkTree {
  leaves : list string;
  tree : list (list string)
}.

(** [l[i]] for a Python list, negative indices included. *)
Definition py_index {A : Type} (l : list A) (i : Z) : result A :=
  let n := Z.of_nat (length l) in
  let j := (if i <? 0 then i + n else i)%Z in
  if ((0 <=? j) && (j <? n))%Z then
    match nth_error l (Z.to_nat j) with
    | Some a => Ok a
    | None => Raise IndexError
    end
  else Raise IndexError.

(** [l[i] = v] for an index already known to be in range. *)
Definition py_setitem {A : Type} (l : list A) (i : nat) (v : A) : list A :=
  firstn i l ++ v :: skipn (S i) l.

(** The body of the [while] loop of [_build_tree]: the pairs
    [(current_level[i], current_level[i + 1])] for [i = 0, 2, 4, ...], the
    last node paired with itself when it has no right neighbour ([lft] and
    [rgt] are the source's [left] and [right]). *)
Fixpoint next_level (current_level : list string) : list string :=
  match current_level with
  | [] => []
  | lft :: rest =>
      match rest with
      | [] => [hash_str (lft ++ lft)]
      | rgt :: rest' => hash_str (lft ++ rgt) :: next_level rest'
      end
  end.

(** The levels appended by the [while len(current_level) > 1] loop. *)
Equations? build_levels (current_level : list string) : list (list string)
  by wf (length current_level) lt :=
  build_levels current_level with lt_dec 1 (length current_level) := {
    | left _ => next_level current_level :: build_levels (next_level current_level)
    | right _ => []
  }.
Proof.
  assert (Hlen : forall n (l : list string),
             (length l <= n -> 2 * length (next_level l) <= S (length l))%nat).
  { induction n as [|n IH]; intros [|x [|y r]] Hl; simpl in *; try lia.
    specialize (IH r). lia. }
  specialize (Hlen _ current_level (le_n _)). lia.
Qed.

Definition _build_tree (leaves : list string) : list (list string) :=
  leaves :: build_levels leaves.

(** [MerkleTree(data_list)]. *)
Definition __init__ (data_list : list pyval) : result MerkleTree :=
  leaves <- mapM _hash_data data_list ;;
  Ok (mkTree leaves (_build_tree leaves)).

Definition get_root (self : MerkleTree) : result (option string) :=
  match tree self with
  | [] => Ok None
  | _ :: _ =>
      top <- py_index (tree self) (-1) ;;
      root <- py_index top 0 ;;
      Ok (Some root)
  end.

Definition get_tree_height (self : MerkleTree) : nat := length (tree self).

(** A proof step, the dict [{'hash': ..., 'position': ...}]. *)
Record ProofStep : Type := mkStep {
  hash : string;
  position : string
}.

(** The [for level in range(len(self.tree) - 1)] loop of [get_proof], with
    its two variables [index] and [proof]. *)
Fixpoint get_proof_loop (tree : list (list string)) (levels : list nat)
    (index : Z) (proof : list ProofStep) : result (list ProofStep) :=
  match levels with
  | [] => Ok proof
  | level :: levels' =>
      current <- py_index tree (Z.of_nat level) ;;
      let sibling_index := Z.lxor index 1 in
      proof' <-
        (if (sibling_index <? Z.of_nat (length current))%Z then
           let position :=
             if (sibling_index <? index)%Z then "left"%string else "right"%string in
           h <- py_index current sibling_index ;;
           Ok (proof ++ [mkStep h position])
         else Ok proof) ;;
      get_proof_loop tree levels' (index / 2)%Z proof'
  end.

Definition get_proof (self : MerkleTree) (index : Z) : result (list ProofStep) :=
  if ((index <? 0) || (index >=? Z.of_nat (length (leaves self))))%Z then
    Raise IndexError
  else
    get_proof_loop (tree self) (seq 0 (length (tree self) - 1)) index [].

(** One iteration of the loop of [verify_proof]. *)
Definition verify_step (current_hash : string) (sibling : ProofStep) : string :=
  if (position sibling =? "left")%string then
    hash_str (hash sibling ++ current_hash)
  else if (position sibling =? "right")%string then
    hash_str (current_hash ++ hash sibling)
  else current_hash.

(** [root] is what [get_root] gave: a hash, or [None]. *)
Definition verify_proof (leaf : pyval) (proof : list ProofStep)
    (root : option string) : result bool :=
  current_hash <- _hash_data leaf ;;
  match root with
  | Some r => Ok (fold_left verify_step proof current_hash =? r)%string
  | None => Ok false
  end.

(** [update_leaf] mutates the object: the result comes with the state
    after the call. *)
Definition update_leaf (self : MerkleTree) (index : Z) (new_value : pyval)
  : result unit * MerkleTree :=
  if ((index <? 0) || (index >=? Z.of_nat (length (leaves self))))%Z then
    (Raise IndexError, self)
  else
    match _hash_data new_value with
    | Raise e => (Raise e, self)
    | Ok h =>
        let leaves' := py_setitem (leaves self) (Z.to_nat index) h in
        (Ok tt, mkTree leaves' (_build_tree leaves'))
    end.

(** The helper of [check_integrity]; its arguments are a hash or [None]. *)
Definition combine_hashes (lft rgt : option string) : result string :=
  match lft, rgt with
  | None, None => _hash_data PNone
  | None, Some r => _hash_data (PStr r)
  | Some l, None => _hash_data (PStr l)
  | Some l, Some r => _hash_data (PStr (l ++ r))
  end.

(** The value [combined] that [check_integrity] computes for node [i] of
    level [lvl]: both children are read from [lvl] itself. *)
Definition combined_at (lvl : list string) (i : nat) : result string :=
  let lft := nth_error lvl (i * 2) in
  let rgt := nth_error lvl (i * 2 + 1) in
  combine_hashes lft rgt.

(** The inner loop; [Ok false] is the early [return False]. *)
Fixpoint check_nodes (lvl : list string) (indices : list nat) : result bool :=
  match indices with
  | [] => Ok true
  | i :: indices' =>
      combined <- combined_at lvl i ;;
      node <- py_index lvl (Z.of_nat i) ;;
      if negb (node =? combined)%string then Ok false
      else check_nodes lvl indices'
  end.

Fixpoint check_levels (tree : list (list string)) (levels : list nat) : result bool :=
  match levels with
  | [] => Ok true
  | level :: levels' =>
      lvl <- py_index tree (Z.of_nat level) ;;
      ok <- check_nodes lvl (seq 0 (length lvl)) ;;
      if ok then check_levels tree levels' else Ok false
  end.

(** [range(len(self.tree) - 2, -1, -1)] is [len - 2, ..., 0]. *)
Definition check_integrity (self : MerkleTree) : result bool :=
  check_levels (tree self) (rev (seq 0 (length (tree self) - 1))).

(** ** The shape of a tree, and sample objects *)

(** What the data model asks of [self.leaves] and [self.tree]: level 0 is
    the leaf list; each level has half the length of the one below,
    rounded up; with at least one leaf the top level is a single hash;
    the height is 1 for one leaf and [ceil(log2 n) + 1] for [n > 1]
    leaves, that is, the [h] with [2^(h-2) < n <= 2^(h-1)]. *)
Definition well_shaped (self : MerkleTree) : Prop :=
  let n := length (leaves self) in
  let h := get_tree_height self in
  nth_error (tree self) 0 = Some (leaves self) /\
  (forall k lo hi,
      nth_error (tree self) k = Some lo ->
      nth_error (tree self) (S k) = Some hi ->
      length hi = ((length lo + 1) / 2)%nat) /\
  (n <> 0%nat -> exists root, last (tree self) [] = [root]) /\
  (n = 1%nat -> h = 1%nat) /\
  (1 < n -> h = Nat.log2_up n + 1 /\ 2 ^ (h - 2) < n <= 2 ^ (h - 1))%nat.

(** The data of the demonstrations at the end of the source files, and a
    three-item list. *)
Definition demo_ab : list pyval := [PStr "a"; PStr "b"].
Definition demo_abc : list pyval := [PStr "a"; PStr "b"; PStr "c"].
Definition demo_abcd : list pyval := [PStr "a"; PStr "b"; PStr "c"; PStr "d"].

(** The object [MerkleTree(items)] when the constructor returns. *)
Definition built (items : list pyval) : MerkleTree :=
  match __init__ items with
  | Ok self => self
  | Raise _ => mkTree [] []
  end.

(** ** The other methods *)

(** [MerkleTree(data_list)] of question6.py: the same constructor, over
    the [_hash_data] that accepts records. *)
Module Question6Tree.
Definition __init__ (data_list : list pyval) : result MerkleTree :=
  leaves <- mapM Question6._hash_data data_list ;;
  Ok (mkTree leaves (_build_tree leaves)).
End Question6Tree.

(** [find_sibling] (question2.py). *)
Definition find_sibling (self : MerkleTree) (index : Z) : result (option string) :=
  if ((index <? 0) || (index >=? Z.of_nat (length (leaves self))))%Z then
    Raise IndexError
  else
    let sibling_index := Z.lxor index 1 in
    level0 <- py_index (tree self) 0 ;;
    if (sibling_index >=? Z.of_nat (length level0))%Z then Ok None
    else
      level0' <- py_index (tree self) 0 ;;
      h <- py_index level0' sibling_index ;;
      Ok (Some h).

(** [original_root == updated_root], on what [get_root] returns. *)
Definition root_eqb (r1 r2 : option string) : bool :=
  match r1, r2 with
  | Some h1, Some h2 => (h1 =? h2)%string
  | None, None => true
  | _, _ => false
  end.

(** [str(b)] as [print] writes it. *)
Definition py_str_bool (b : bool) : string :=
  if b then "True"%string else "False"%string.

(** [test_immutability] (question5.py, question6.py): the line it prints,
    with the state after the call. *)
Definition test_immutability (self : MerkleTree) (index : Z) (new_value : pyval)
  : result string * MerkleTree :=
  match get_root self with
  | Raise e => (Raise e, self)
  | Ok original_root =>
      match update_leaf self index new_value with
      | (Raise e, self') => (Raise e, self')
      | (Ok _, self') =>
          match get_root self' with
          | Raise e => (Raise e, self')
          | Ok updated_root =>
              (Ok ("Roots match after modification: "
                   ++ py_str_bool (root_eqb original_root updated_root))%string,
               self')
          end
      end
  end.

(** ** Notions used to state the further properties *)

(** What [hashlib.sha256] accepts after the [str] branch: [str] and
    [bytes]. *)
Definition hashable (data : pyval) : bool :=
  match data with
  | PStr _ | PBytes _ => true
  | PNone | PDict _ => false
  end.

(** At every level below the top, the node above leaf [index] has its
    sibling in range. *)
Fixpoint siblings_present (levels : list (list string)) (index : Z) : bool :=
  match levels with
  | [] => true
  | lvl :: above =>
      match above with
      | [] => true
      | _ :: _ =>
          (Z.lxor index 1 <? Z.of_nat (length lvl))%Z
          && siblings_present above (index / 2)%Z
      end
  end.

(** The strings that the builder hashes to make the next level. *)
Fixpoint pair_texts (l : list string) : list string :=
  match l with
  | [] => []
  | x :: rest =>
      match rest with
      | [] => [(x ++ x)%string]
      | y :: rest' => (x ++ y)%string :: pair_texts rest'
      end
  end.

(** A hash as the data model has it: 64 lowercase hexadecimal digits. *)
Definition is_lower_hex (c : ascii) : bool :=
  let n := N_of_ascii c in
  (((48 <=? n) && (n <=? 57)) || ((97 <=? n) && (n <=? 102)))%N.

Definition is_hash (h : string) : Prop :=
  String.length h = 64%nat /\
  Forall (fun c => is_lower_hex c = true) (list_ascii_of_string h).

(** Two items that are the same record up to the order of its keys, or the
    same value. *)
Inductive same_item : pyval -> pyval -> Prop :=
| same_refl (v : pyval) : same_item v v
| same_record (d1 d2 : pydict) :
    NoDup (map fst d1) -> Permutation d1 d2 -> same_item (PDict d1) (PDict d2).

(** * Properties *)

(** ** SHA-256 test vectors *)

Example sha256_empty :
  SHA256.hexdigest EmptyString
  = "e3b0c44298fc1c149afbf4c8996fb92427ae41e4649b934ca495991b7852b855"%string.
Proof. vm_compute. reflexivity. Qed.

Example sha256_abc :
  SHA256.hexdigest "abc"
  = "ba7816bf8f01cfea414140de5dae2223b00361a396177a9cb410ff61f20015ad"%string.
Proof. vm_compute. reflexivity. Qed.

Example sha256_two_blocks :
  SHA256.hexdigest "aaaaaaaaaaaaaaaaaaaaaaaaaaaaaaaaaaaaaaaaaaaaaaaaaaaaaaaa"
  = "b35439a4ac6f0948b6d6f9e3c6af0f5f590ce20f1bde7090ef7970686ec6738a"%string.
Proof. vm_compute. reflexivity. Qed.

Example sha256_constants :
  nth 0 SHA256.K 0%Z = 0x428a2f98%Z /\ nth 63 SHA256.K 0%Z = 0xc67178f2%Z /\
  nth 0 SHA256.H0 0%Z = 0x6a09e667%Z /\ nth 7 SHA256.H0 0%Z = 0x5be0cd19%Z.
Proof. repeat split. Qed.

Arguments SHA256.hexdigest : simpl never.
Arguments hash_str : simpl never.

(** ** Indexing *)

Lemma py_index_nat {A : Type} (l : list A) (n : nat) (a : A) :
  nth_error l n = Some a -> py_index l (Z.of_nat n) = Ok a.
Proof.
  intros Hn.
  assert (Hlt : (n < length l)%nat) by (apply nth_error_Some; congruence).
  unfold py_index.
  replace (Z.of_nat n <? 0)%Z with false by (symmetry; apply Z.ltb_ge; lia).
  replace ((0 <=? Z.of_nat n) && (Z.of_nat n <? Z.of_nat (length l)))%Z with true.
  - rewrite Nat2Z.id, Hn. reflexivity.
  - symmetry. apply andb_true_iff. split; [apply Z.leb_le | apply Z.ltb_lt]; lia.
Qed.

Lemma py_index_in_range {A : Type} (l : list A) (i : Z) :
  (0 <= i < Z.of_nat (length l))%Z -> exists a, py_index l i = Ok a.
Proof.
  intros Hi.
  destruct (nth_error l (Z.to_nat i)) as [a|] eqn:Hn.
  - exists a. rewrite <- (Z2Nat.id i) by lia. now apply py_index_nat.
  - apply nth_error_None in Hn. lia.
Qed.

Lemma py_index_cons_succ {A : Type} (x : A) (l : list A) (n : nat) :
  py_index (x :: l) (Z.of_nat (S n)) = py_index l (Z.of_nat n).
Proof.
  destruct (nth_error l n) as [a|] eqn:Hn.
  - rewrite (py_index_nat l n a Hn). now apply py_index_nat.
  - assert (Hge : (length l <= n)%nat) by now apply nth_error_None.
    unfold py_index.
    replace (Z.of_nat (S n) <? 0)%Z with false by (symmetry; apply Z.ltb_ge; lia).
    replace (Z.of_nat n <? 0)%Z with false by (symmetry; apply Z.ltb_ge; lia).
    replace (Z.of_nat (S n) <? Z.of_nat (length (x :: l)))%Z with false
      by (symmetry; apply Z.ltb_ge; simpl length; lia).
    replace (Z.of_nat n <? Z.of_nat (length l))%Z with false
      by (symmetry; apply Z.ltb_ge; lia).
    now rewrite !andb_false_r.
Qed.

Lemma py_index_last {A : Type} (x : A) (l : list A) (d : A) :
  py_index (x :: l) (-1) = Ok (last (x :: l) d).
Proof.
  unfold py_index.
  replace (-1 <? 0)%Z with true by reflexivity.
  set (n := length (x :: l)).
  assert (Hn : n = S (length l)) by reflexivity.
  replace ((0 <=? -1 + Z.of_nat n) && (-1 + Z.of_nat n <? Z.of_nat n))%Z with true
    by (symmetry; apply andb_true_iff; split; [apply Z.leb_le | apply Z.ltb_lt]; lia).
  replace (Z.to_nat (-1 + Z.of_nat n)) with (length l) by lia.
  clear n Hn. revert x.
  induction l as [|y l IH]; intros x; [reflexivity|].
  change (nth_error (x :: y :: l) (length (y :: l))) with (nth_error (y :: l) (length l)).
  change (last (x :: y :: l) d) with (last (y :: l) d).
  apply IH.
Qed.

Lemma py_index_empty {A : Type} (i : Z) : py_index (@nil A) i = Raise IndexError.
Proof.
  unfold py_index. cbn [length].
  destruct (Z.ltb_spec i 0) as [Hi|Hi].
  - destruct (Z.leb_spec 0 (i + Z.of_nat 0)); [lia | reflexivity].
  - destruct (Z.ltb_spec i (Z.of_nat 0)); [lia | now rewrite andb_false_r].
Qed.

(** ** The builder *)

(** Induction over a list two elements at a time, as the builder reads it. *)
Lemma list_pair_ind {A : Type} (P : list A -> Prop) :
  P [] -> (forall x, P [x]) -> (forall x y l, P l -> P (x :: y :: l)) ->
  forall l, P l.
Proof.
  intros H0 H1 H2.
  assert (H : forall l, P l /\ forall x, P (x :: l)).
  { induction l as [|y l [IHa IHb]]; split; auto. }
  intros l. apply H.
Qed.

Lemma next_level_length (l : list string) :
  length (next_level l) = ((length l + 1) / 2)%nat.
Proof.
  induction l as [| x | x y l IH] using list_pair_ind; try reflexivity.
  change (next_level (x :: y :: l)) with (hash_str (x ++ y) :: next_level l).
  simpl length. rewrite IH.
  replace (S (S (length l)) + 1)%nat with ((length l + 1) + 1 * 2)%nat by lia.
  rewrite Nat.div_add by lia. lia.
Qed.

(** Node [m] of the next level hashes nodes [2m] and [2m+1] of the current
    one, or node [2m] twice when [2m+1] is out of range: the loop of
    [_build_tree] as the source indexes it. *)
Lemma next_level_nth (l : list string) (m : nat) :
  (2 * m < length l)%nat ->
  nth_error (next_level l) m
  = Some (hash_str (nth (2 * m) l EmptyString
                    ++ (if (2 * m + 1 <? length l)%nat
                        then nth (2 * m + 1) l EmptyString
                        else nth (2 * m) l EmptyString))).
Proof.
  revert m.
  induction l as [| x | x y l IH] using list_pair_ind; intros m Hm.
  - simpl in Hm. lia.
  - simpl in Hm. assert (m = 0%nat) by lia. subst m. reflexivity.
  - change (next_level (x :: y :: l)) with (hash_str (x ++ y) :: next_level l).
    destruct m as [|m]; [reflexivity|].
    simpl length in Hm.
    replace (2 * S m)%nat with (S (S (2 * m))) by lia.
    replace (S (S (2 * m)) + 1)%nat with (S (S (2 * m + 1))) by lia.
    cbn [nth_error nth length].
    rewrite IH by lia.
    change (S (S (2 * m + 1)) <? S (S (length l)))%nat with (2 * m + 1 <? length l)%nat.
    reflexivity.
Qed.

Lemma build_tree_short (l : list string) :
  (length l <= 1)%nat -> _build_tree l = [l].
Proof.
  intros Hl. unfold _build_tree. simp build_levels.
  destruct (lt_dec 1 (length l)); [lia | reflexivity].
Qed.

Lemma build_tree_step (l : list string) :
  (1 < length l)%nat -> _build_tree l = l :: _build_tree (next_level l).
Proof.
  intros Hl. unfold _build_tree. rewrite build_levels_equation_1.
  destruct (lt_dec 1 (length l)); [reflexivity | lia].
Qed.

(** ** [__init__]: the leaf level *)

Lemma mapM_Forall2 {A B : Type} (f : A -> result B) (l : list A) (l' : list B) :
  mapM f l = Ok l' -> Forall2 (fun a b => f a = Ok b) l l'.
Proof.
  revert l'.
  induction l as [|a l IH]; intros l' H; simpl in H.
  - injection H as <-. constructor.
  - destruct (f a) as [b|e] eqn:Hb; simpl in H; [|discriminate].
    destruct (mapM f l) as [bs|e] eqn:Hbs; simpl in H; [|discriminate].
    injection H as <-. constructor; auto.
Qed.

Lemma Forall2_nth_error_left {A B : Type} (R : A -> B -> Prop)
    (l : list A) (l' : list B) (n : nat) (a : A) :
  Forall2 R l l' -> nth_error l n = Some a ->
  exists b, nth_error l' n = Some b /\ R a b.
Proof.
  intros H. revert n.
  induction H as [|x y l l' Hxy _ IH]; intros [|n] Hn; try discriminate.
  - injection Hn as <-. now exists y.
  - now apply IH.
Qed.

Lemma init_inv (items : list pyval) (self : MerkleTree) :
  __init__ items = Ok self ->
  mapM _hash_data items = Ok (leaves self) /\
  tree self = _build_tree (leaves self).
Proof.
  unfold __init__. destruct (mapM _hash_data items) as [hs|e]; simpl; [|discriminate].
  intros H. injection H as <-. split; reflexivity.
Qed.

Lemma init_leaves_length (items : list pyval) (self : MerkleTree) :
  __init__ items = Ok self -> length (leaves self) = length items.
Proof.
  intros H. apply init_inv in H as [H _]. apply mapM_Forall2 in H.
  symmetry. eapply Forall2_length; eassumption.
Qed.

(** ** C3: the root of an empty tree *)

(** C3 (fails on the code).  A tree built from no item has the single
    level [[]]; [self.tree] is then a non-empty list, the guard
    [if self.tree] of [get_root] passes, and [self.tree[-1][0]] raises
    [IndexError]: the root query raises instead of returning [None]. *)
Theorem get_root_empty_raises :
  __init__ [] = Ok (mkTree [] [[]]) /\
  get_root (mkTree [] [[]]) = Raise IndexError /\
  (self <- __init__ [] ;; get_root self) <> Ok None.
Proof.
  split; [reflexivity|]. split; [reflexivity|]. discriminate.
Qed.

(** ** C6: [update_leaf] out of range *)

(** C6.  With an index outside [0, len(leaves)), [update_leaf] raises
    [IndexError] and the object is left as it was, leaf list and levels:
    the index is checked before anything is assigned. *)
Theorem update_leaf_out_of_range (self : MerkleTree) (index : Z) (new_value : pyval) :
  (index < 0 \/ Z.of_nat (length (leaves self)) <= index)%Z ->
  update_leaf self index new_value = (Raise IndexError, self).
Proof.
  intros H. unfold update_leaf.
  destruct (Z.ltb_spec index 0) as [Hlt|Hge]; [reflexivity|].
  destruct (Z.geb_spec index (Z.of_nat (length (leaves self)))) as [Hg|Hl];
    [reflexivity | lia].
Qed.

Lemma update_leaf_out_of_range_witness :
  (2 < 0 \/ Z.of_nat (length (leaves (built demo_ab))) <= 2)%Z /\
  update_leaf (built demo_ab) 2 (PStr "z") = (Raise IndexError, built demo_ab).
Proof.
  assert (H : (2 < 0 \/ Z.of_nat (length (leaves (built demo_ab))) <= 2)%Z)
    by (right; vm_compute; discriminate).
  split; [exact H | exact (update_leaf_out_of_range (built demo_ab) 2 (PStr "z") H)].
Defined.

(** ** C7: the index check of [get_proof] *)

Lemma get_proof_loop_total (t : list (list string)) (levels : list nat) :
  Forall (fun level => (level < length t)%nat) levels ->
  forall (index : Z) (proof : list ProofStep),
    (0 <= index)%Z ->
    exists proof', get_proof_loop t levels index proof = Ok proof'.
Proof.
  induction 1 as [|level levels Hlevel _ IH]; intros index proof Hidx.
  - eexists. reflexivity.
  - cbn [get_proof_loop].
    destruct (py_index_in_range t (Z.of_nat level)) as [current ->]; [lia|].
    cbn [bind].
    assert (Hsib : (0 <= Z.lxor index 1)%Z) by (apply Z.lxor_nonneg; lia).
    assert (Hhalf : (0 <= index / 2)%Z) by (apply Z.div_pos; lia).
    destruct (Z.ltb_spec (Z.lxor index 1) (Z.of_nat (length current))) as [Hin|Hout].
    + destruct (py_index_in_range current (Z.lxor index 1)) as [h ->]; [lia|].
      cbn [bind]. now apply IH.
    + cbn [bind]. now apply IH.
Qed.

Lemma get_proof_in_range (self : MerkleTree) (index : Z) :
  (0 <= index < Z.of_nat (length (leaves self)))%Z ->
  exists proof, get_proof self index = Ok proof.
Proof.
  intros [Hlo Hhi]. unfold get_proof.
  destruct (Z.ltb_spec index 0) as [?|_]; [lia|].
  destruct (Z.geb_spec index (Z.of_nat (length (leaves self)))) as [?|_]; [lia|].
  cbn [orb]. apply get_proof_loop_total; [|exact Hlo].
  apply Forall_forall. intros level Hin. apply in_seq in Hin. lia.
Qed.

Lemma get_proof_out_of_range (self : MerkleTree) (index : Z) :
  (index < 0 \/ Z.of_nat (length (leaves self)) <= index)%Z ->
  get_proof self index = Raise IndexError.
Proof.
  intros H. unfold get_proof.
  destruct (Z.ltb_spec index 0) as [?|?]; [reflexivity|].
  destruct (Z.geb_spec index (Z.of_nat (length (leaves self)))) as [?|?];
    [reflexivity | lia].
Qed.

(** C7.  On an object with [n] leaves, [get_proof(-1)] and [get_proof(n)]
    raise [IndexError], and [get_proof(index)] returns a proof exactly when
    [0 <= index < n]; otherwise it raises [IndexError].  With no leaf every
    index is refused. *)
Theorem get_proof_index_range (self : MerkleTree) (index : Z) :
  let n := Z.of_nat (length (leaves self)) in
  get_proof self (-1) = Raise IndexError /\
  get_proof self n = Raise IndexError /\
  ((exists proof, get_proof self index = Ok proof) <-> (0 <= index < n)%Z) /\
  (~ (0 <= index < n)%Z -> get_proof self index = Raise IndexError) /\
  (n = 0%Z -> get_proof self index = Raise IndexError).
Proof.
  intros n. subst n.
  split; [apply get_proof_out_of_range; lia|].
  split; [apply get_proof_out_of_range; lia|].
  split; [split|split].
  - intros [proof Hp].
    destruct (Z.lt_ge_cases index 0) as [Hneg|Hpos].
    + rewrite get_proof_out_of_range in Hp by lia. discriminate.
    + destruct (Z.lt_ge_cases index (Z.of_nat (length (leaves self)))); [lia|].
      rewrite get_proof_out_of_range in Hp by lia. discriminate.
  - apply get_proof_in_range.
  - intros Hn. apply get_proof_out_of_range. lia.
  - intros Hn. apply get_proof_out_of_range. lia.
Qed.

(** ** C10: steps with an unknown position *)

Lemma verify_step_unknown (current_hash : string) (sibling : ProofStep) :
  position sibling <> "left"%string -> position sibling <> "right"%string ->
  verify_step current_hash sibling = current_hash.
Proof.
  intros Hl Hr. unfold verify_step.
  apply String.eqb_neq in Hl, Hr. now rewrite Hl, Hr.
Qed.

Lemma fold_verify_unknown (proof : list ProofStep) (current_hash : string) :
  Forall (fun s => position s <> "left"%string /\ position s <> "right"%string) proof ->
  fold_left verify_step proof current_hash = current_hash.
Proof.
  intros H. revert current_hash.
  induction H as [|s proof [Hl Hr] _ IH]; intros current_hash; [reflexivity|].
  cbn [fold_left]. rewrite verify_step_unknown by assumption. apply IH.
Qed.

(** C10.  A step whose position is neither ['left'] nor ['right'] leaves
    the running hash as it is, and nothing is raised for it; a proof made
    of such steps only is accepted exactly when the hash of the leaf is
    the candidate root. *)
Theorem verify_proof_skips_unknown_positions
    (leaf : pyval) (proof : list ProofStep) (root : option string) :
  Forall (fun s => position s <> "left"%string /\ position s <> "right"%string) proof ->
  (forall s current_hash, In s proof -> verify_step current_hash s = current_hash) /\
  verify_proof leaf proof root
  = (leaf_hash <- _hash_data leaf ;;
     Ok (match root with
         | Some r => (leaf_hash =? r)%string
         | None => false
         end)).
Proof.
  intros H. split.
  - intros s current_hash Hin.
    rewrite Forall_forall in H. destruct (H s Hin). now apply verify_step_unknown.
  - unfold verify_proof. destruct (_hash_data leaf) as [h|e]; [|reflexivity].
    cbn [bind]. rewrite fold_verify_unknown by assumption.
    destruct root; reflexivity.
Qed.

Lemma verify_proof_skips_unknown_positions_witness :
  verify_proof (PStr "a") [mkStep "00" "up"; mkStep "ff" "LEFT"]
    (Some (hash_str "a")) = Ok true.
Proof.
  assert (H : Forall (fun s => position s <> "left"%string /\ position s <> "right"%string)
                [mkStep "00" "up"; mkStep "ff" "LEFT"])
    by (repeat constructor; discriminate).
  destruct (verify_proof_skips_unknown_positions
              (PStr "a") [mkStep "00" "up"; mkStep "ff" "LEFT"]
              (Some (hash_str "a")) H) as [_ ->].
  cbn [_hash_data bind]. unfold hash_str. now rewrite String.eqb_refl.
Defined.

(** ** C5: the shape of the tree *)

(** Induction along the [while] loop of [_build_tree]. *)
Lemma build_tree_ind (P : list string -> Prop) :
  (forall l, (length l <= 1)%nat -> P l) ->
  (forall l, (1 < length l)%nat -> P (next_level l) -> P l) ->
  forall l, P l.
Proof.
  intros Hshort Hstep l.
  remember (length l) as n eqn:Hn. revert l Hn.
  induction n as [n IH] using lt_wf_ind. intros l Hn.
  destruct (le_lt_dec (length l) 1) as [Hle|Hlt].
  - now apply Hshort.
  - apply Hstep; [exact Hlt|].
    apply (IH (length (next_level l))); [|reflexivity].
    rewrite next_level_length. subst n.
    apply Nat.Div0.div_lt_upper_bound. lia.
Qed.

Lemma build_tree_level0 (l : list string) : nth_error (_build_tree l) 0 = Some l.
Proof. reflexivity. Qed.

Lemma build_tree_levels (l : list string) :
  forall k lo hi,
    nth_error (_build_tree l) k = Some lo ->
    nth_error (_build_tree l) (S k) = Some hi ->
    hi = next_level lo.
Proof.
  induction l as [l Hl | l Hl IH] using build_tree_ind; intros k lo hi Hlo Hhi.
  - rewrite build_tree_short in Hhi by assumption.
    destruct k; discriminate.
  - rewrite build_tree_step in Hlo, Hhi by assumption.
    destruct k as [|k].
    + unfold _build_tree in Hhi. cbn [nth_error] in Hlo, Hhi. congruence.
    + cbn [nth_error] in Hlo, Hhi. now apply (IH k).
Qed.

Lemma build_tree_top (l : list string) :
  l <> [] -> exists root, last (_build_tree l) [] = [root].
Proof.
  induction l as [l Hl | l Hl IH] using build_tree_ind; intros Hne.
  - rewrite build_tree_short by assumption.
    destruct l as [|x [|y l]]; [congruence | now exists x | simpl in Hl; lia].
  - rewrite build_tree_step by assumption.
    assert (Hnext : next_level l <> []).
    { destruct l as [|x [|y l]]; simpl in Hl; try lia. discriminate. }
    destruct (IH Hnext) as [root Hroot]. exists root.
    unfold _build_tree in *. exact Hroot.
Qed.

Lemma log2_up_half (n : nat) :
  (2 <= n)%nat -> Nat.log2_up n = S (Nat.log2_up ((n + 1) / 2)).
Proof.
  intros Hn.
  set (m := ((n + 1) / 2)%nat).
  assert (Hm : (2 * m <= n + 1 /\ n < 2 * m + 1)%nat).
  { pose proof (Nat.div_mod_eq (n + 1) 2) as Hd.
    pose proof (Nat.mod_upper_bound (n + 1) 2 ltac:(lia)) as Hr.
    fold m in Hd. lia. }
  apply Nat.log2_up_unique; [lia|].
  cbn [Nat.pred]. rewrite Nat.pow_succ_r'.
  destruct (Nat.eq_dec m 1) as [Hm1|Hm1].
  - rewrite Hm1. change (Nat.log2_up 1) with 0%nat. simpl. lia.
  - assert (Hm2 : (1 < m)%nat) by lia.
    pose proof (Nat.log2_up_spec m Hm2) as [Hlo Hhi].
    assert (Hpos : (0 < Nat.log2_up m)%nat) by (apply Nat.log2_up_pos; exact Hm2).
    destruct (Nat.log2_up m) as [|k]; [lia|].
    cbn [Nat.pred] in Hlo. rewrite Nat.pow_succ_r' in Hhi |- *. lia.
Qed.

Lemma build_tree_height (l : list string) :
  length (_build_tree l) = (Nat.log2_up (length l) + 1)%nat.
Proof.
  induction l as [l Hl | l Hl IH] using build_tree_ind.
  - rewrite build_tree_short by assumption.
    destruct l as [|x [|y l]]; [reflexivity | reflexivity | simpl in Hl; lia].
  - rewrite build_tree_step by assumption.
    cbn [length]. rewrite IH, next_level_length, (log2_up_half (length l)) by lia.
    lia.
Qed.

Lemma built_well_shaped (l : list string) : well_shaped (mkTree l (_build_tree l)).
Proof.
  unfold well_shaped, get_tree_height. cbn [leaves tree].
  split; [apply build_tree_level0|].
  split.
  { intros k lo hi Hlo Hhi.
    rewrite (build_tree_levels l k lo hi Hlo Hhi). apply next_level_length. }
  split.
  { intros Hn. apply build_tree_top. intros ->. now apply Hn. }
  rewrite build_tree_height.
  split.
  { intros ->. reflexivity. }
  intros Hn. split; [reflexivity|].
  pose proof (Nat.log2_up_spec (length l) Hn) as [Hlo Hhi].
  assert (Hpos : (0 < Nat.log2_up (length l))%nat) by (apply Nat.log2_up_pos; exact Hn).
  replace (Nat.log2_up (length l) + 1 - 2)%nat with (Nat.pred (Nat.log2_up (length l))) by lia.
  replace (Nat.log2_up (length l) + 1 - 1)%nat with (Nat.log2_up (length l)) by lia.
  split; assumption.
Qed.

Lemma py_setitem_length {A : Type} (l : list A) (i : nat) (v : A) :
  (i < length l)%nat -> length (py_setitem l i v) = length l.
Proof.
  intros Hi. unfold py_setitem.
  rewrite length_app. cbn [length]. rewrite length_firstn, length_skipn. lia.
Qed.

Lemma py_setitem_nth {A : Type} (l : list A) (i j : nat) (v : A) :
  (i < length l)%nat ->
  nth_error (py_setitem l i v) j = if (j =? i)%nat then Some v else nth_error l j.
Proof.
  intros Hi. unfold py_setitem.
  assert (Hf : length (firstn i l) = i) by (rewrite length_firstn; lia).
  destruct (Nat.eqb_spec j i) as [->|Hne].
  - rewrite nth_error_app2 by lia. rewrite Hf, Nat.sub_diag. reflexivity.
  - destruct (Nat.lt_ge_cases j i) as [Hlt|Hge].
    + rewrite nth_error_app1 by lia. rewrite nth_error_firstn.
      destruct (Nat.ltb_spec j i); [reflexivity | lia].
    + rewrite nth_error_app2 by lia. rewrite Hf.
      destruct (j - i)%nat as [|d] eqn:Hd; [lia|].
      cbn [nth_error]. rewrite nth_error_skipn. f_equal. lia.
Qed.

Lemma update_leaf_inv (self : MerkleTree) (index : Z) (new_value : pyval)
    (self' : MerkleTree) :
  update_leaf self index new_value = (Ok tt, self') ->
  (0 <= index < Z.of_nat (length (leaves self)))%Z /\
  exists h, _hash_data new_value = Ok h /\
            leaves self' = py_setitem (leaves self) (Z.to_nat index) h /\
            tree self' = _build_tree (leaves self').
Proof.
  unfold update_leaf.
  destruct (Z.ltb_spec index 0) as [?|Hlo]; [discriminate|].
  destruct (Z.geb_spec index (Z.of_nat (length (leaves self)))) as [?|Hhi];
    [discriminate|].
  cbn [orb]. destruct (_hash_data new_value) as [h|e]; [|discriminate].
  intros H. injection H as <-. split; [lia|].
  exists h. repeat split.
Qed.

(** C5.  After [MerkleTree(items)] and after a successful [update_leaf] the
    object is well shaped: level 0 is the leaf list, which holds the hash
    of each item in order (after an update: the old leaf list with the
    hash of the new value at [index]); each level above has
    [ceil(len(below) / 2)] hashes; the top level has one hash when there
    is a leaf; [get_tree_height] is 1 for one leaf and
    [ceil(log2 n) + 1] for [n > 1] leaves. *)
Theorem tree_shape_invariant :
  (forall items self,
      __init__ items = Ok self ->
      well_shaped self /\
      Forall2 (fun item h => _hash_data item = Ok h) items (leaves self)) /\
  (forall self index new_value self',
      update_leaf self index new_value = (Ok tt, self') ->
      well_shaped self' /\
      length (leaves self') = length (leaves self) /\
      exists h, _hash_data new_value = Ok h /\
                leaves self' = py_setitem (leaves self) (Z.to_nat index) h).
Proof.
  split.
  - intros items [lv tr] H. apply init_inv in H as [Hl Ht]. cbn [leaves tree] in *.
    subst tr. split; [apply built_well_shaped | now apply mapM_Forall2].
  - intros self index new_value [lv tr] H.
    apply update_leaf_inv in H as [Hidx (h & Hh & Hl & Ht)]. cbn [leaves tree] in *.
    subst tr. split; [apply built_well_shaped|].
    split; [|now exists h].
    rewrite Hl. apply py_setitem_length. lia.
Qed.

Lemma tree_shape_invariant_witness :
  well_shaped (built demo_abc) /\
  well_shaped (snd (update_leaf (built demo_abcd) 2 (PStr "z"))).
Proof.
  destruct tree_shape_invariant as [Hinit Hupdate].
  split.
  - apply (Hinit demo_abc (built demo_abc)). vm_compute. reflexivity.
  - apply (Hupdate (built demo_abcd) 2%Z (PStr "z")). vm_compute. reflexivity.
Defined.

(** ** C9: proofs on trees with a power of two of leaves *)

Lemma lxor_1_even (m : Z) : (0 <= m -> Z.lxor (2 * m) 1 = 2 * m + 1)%Z.
Proof. destruct m as [|p|p]; intros H; [reflexivity | reflexivity | lia]. Qed.

Lemma lxor_1_odd (m : Z) : (0 <= m -> Z.lxor (2 * m + 1) 1 = 2 * m)%Z.
Proof. destruct m as [|p|p]; intros H; [reflexivity | reflexivity | lia]. Qed.

(** The loop reads [self.tree[level]] only: below a first level that is not
    visited, the level numbers shift by one. *)
Lemma get_proof_loop_shift (x : list string) (t : list (list string)) (n : nat) :
  forall (a : nat) (index : Z) (proof : list ProofStep),
    get_proof_loop (x :: t) (seq (S a) n) index proof
    = get_proof_loop t (seq a n) index proof.
Proof.
  induction n as [|n IH]; intros a index proof; [reflexivity|].
  cbn [seq get_proof_loop]. rewrite py_index_cons_succ.
  destruct (py_index t (Z.of_nat a)) as [current|e]; [|reflexivity].
  cbn [bind].
  destruct (if (Z.lxor index 1 <? Z.of_nat (length current))%Z then _ else _)
    as [proof'|e]; [|reflexivity].
  cbn [bind]. apply IH.
Qed.

(** One iteration of the loop at a node that has its sibling, followed by
    the verifier's step: the node of the next level above it. *)
Lemma sibling_step (l : list string) (j : nat) :
  Nat.Even (length l) -> (j < length l)%nat ->
  exists s,
    (Z.lxor (Z.of_nat j) 1 <? Z.of_nat (length l))%Z = true /\
    py_index l (Z.lxor (Z.of_nat j) 1) = Ok (hash s) /\
    position s = (if (Z.lxor (Z.of_nat j) 1 <? Z.of_nat j)%Z
                  then "left" else "right")%string /\
    (Z.of_nat j / 2)%Z = Z.of_nat (j / 2) /\
    nth_error (next_level l) (j / 2)
    = Some (verify_step (nth j l EmptyString) s).
Proof.
  intros [half Hhalf] Hj.
  pose proof (Nat.div_mod_eq j 2) as Hdm.
  pose proof (Nat.mod_upper_bound j 2 ltac:(lia)) as Hr.
  set (m := (j / 2)%nat) in *.
  assert (Hnl : nth_error (next_level l) m
                = Some (hash_str (nth (2 * m) l EmptyString
                                  ++ nth (2 * m + 1) l EmptyString))).
  { rewrite next_level_nth by lia.
    destruct (Nat.ltb_spec (2 * m + 1) (length l)); [reflexivity | lia]. }
  assert (Hdiv : (Z.of_nat j / 2)%Z = Z.of_nat m).
  { unfold m. rewrite Nat2Z.inj_div. reflexivity. }
  destruct (j mod 2)%nat as [|[|r]] eqn:Hmod; [| |lia].
  - (* [j = 2m]: the sibling is [2m + 1], on the right *)
    assert (Hjm : j = (2 * m)%nat) by lia.
    assert (Hx : Z.lxor (Z.of_nat j) 1 = Z.of_nat (2 * m + 1)).
    { rewrite Hjm, Nat2Z.inj_mul. change (Z.of_nat 2) with 2%Z.
      rewrite lxor_1_even by lia. lia. }
    exists (mkStep (nth (2 * m + 1) l EmptyString) "right").
    rewrite Hx. cbn [hash position].
    split; [apply Z.ltb_lt; lia|].
    split; [apply py_index_nat, nth_error_nth'; lia|].
    split; [destruct (Z.ltb_spec (Z.of_nat (2 * m + 1)) (Z.of_nat j)); [lia | reflexivity]|].
    split; [exact Hdiv|].
    rewrite Hnl, Hjm. reflexivity.
  - (* [j = 2m + 1]: the sibling is [2m], on the left *)
    assert (Hjm : j = (2 * m + 1)%nat) by lia.
    assert (Hx : Z.lxor (Z.of_nat j) 1 = Z.of_nat (2 * m)).
    { rewrite Hjm, Nat2Z.inj_add, Nat2Z.inj_mul. change (Z.of_nat 2) with 2%Z.
      change (Z.of_nat 1) with 1%Z. rewrite lxor_1_odd by lia. reflexivity. }
    exists (mkStep (nth (2 * m) l EmptyString) "left").
    rewrite Hx. cbn [hash position].
    split; [apply Z.ltb_lt; lia|].
    split; [apply py_index_nat, nth_error_nth'; lia|].
    split; [destruct (Z.ltb_spec (Z.of_nat (2 * m)) (Z.of_nat j)); [reflexivity | lia]|].
    split; [exact Hdiv|].
    rewrite Hnl, Hjm. reflexivity.
Qed.

Lemma pow2_proof_loop (k : nat) :
  forall (l : list string) (j : nat) (acc : list ProofStep),
    length l = (2 ^ k)%nat -> (j < 2 ^ k)%nat ->
    length (_build_tree l) = S k /\
    exists steps root,
      get_proof_loop (_build_tree l) (seq 0 k) (Z.of_nat j) acc = Ok (acc ++ steps) /\
      length steps = k /\
      last (_build_tree l) [] = [root] /\
      fold_left verify_step steps (nth j l EmptyString) = root.
Proof.
  induction k as [|k IH]; intros l j acc Hlen Hj.
  - cbn in Hlen, Hj. destruct l as [|x [|y l]]; try discriminate.
    assert (j = 0%nat) by lia. subst j.
    rewrite build_tree_short by (simpl; lia).
    split; [reflexivity|]. exists [], x. rewrite app_nil_r. repeat split.
  - assert (Hpow : (2 ^ S k = 2 * 2 ^ k)%nat) by apply Nat.pow_succ_r'.
    assert (Hpos : (0 < 2 ^ k)%nat) by (apply Nat.neq_0_lt_0, Nat.pow_nonzero; lia).
    assert (Heven : Nat.Even (length l)) by (exists (2 ^ k)%nat; lia).
    assert (Hnext : length (next_level l) = (2 ^ k)%nat).
    { rewrite next_level_length, Hlen, Hpow.
      replace (2 * 2 ^ k + 1)%nat with (1 + 2 ^ k * 2)%nat by lia.
      rewrite Nat.div_add by lia. reflexivity. }
    destruct (sibling_step l j Heven ltac:(lia)) as (s & Hin & Hsib & Hpos' & Hdiv & Hup).
    assert (Hj2 : (j / 2 < 2 ^ k)%nat) by (apply Nat.Div0.div_lt_upper_bound; lia).
    destruct (IH (next_level l) (j / 2)%nat (acc ++ [s]) Hnext Hj2)
      as (Hh & steps & root & Hloop & Hsteps & Hlast & Hfold).
    rewrite build_tree_step by lia.
    split; [cbn [length]; now rewrite Hh|].
    exists (s :: steps), root.
    split; [|split; [|split]].
    + cbn [seq get_proof_loop].
      rewrite (py_index_nat (l :: _build_tree (next_level l)) 0 l eq_refl). cbn [bind].
      rewrite Hin, Hsib. cbn [bind].
      rewrite get_proof_loop_shift, Hdiv.
      replace (mkStep (hash s) _) with s by (destruct s; cbn in *; now subst).
      rewrite Hloop, <- app_assoc. reflexivity.
    + cbn [length]. now rewrite Hsteps.
    + unfold _build_tree in Hlast |- *. exact Hlast.
    + cbn [fold_left]. rewrite <- Hfold. f_equal.
      apply nth_error_nth with (d := EmptyString) in Hup. now rewrite <- Hup.
Qed.

Lemma get_root_top (self : MerkleTree) (root : string) :
  last (tree self) [] = [root] -> get_root self = Ok (Some root).
Proof.
  unfold get_root. destruct (tree self) as [|x t]; [discriminate|].
  intros Hlast. rewrite (py_index_last x t []), Hlast. reflexivity.
Qed.

(** C9.  When the number of items is a power of two (1 included), then for
    every valid index [get_proof] returns [height - 1] steps and
    [verify_proof] accepts the item at that index with this proof against
    [get_root()]. *)
Theorem pow2_proof_round_trip
    (items : list pyval) (self : MerkleTree) (k : nat) (index : Z) :
  __init__ items = Ok self ->
  length items = (2 ^ k)%nat ->
  (0 <= index < Z.of_nat (length items))%Z ->
  exists item proof root,
    py_index items index = Ok item /\
    get_proof self index = Ok proof /\
    length proof = (get_tree_height self - 1)%nat /\
    get_root self = Ok root /\
    verify_proof item proof root = Ok true.
Proof.
  intros Hinit Hlen Hidx.
  pose proof (init_leaves_length items self Hinit) as Hleaves.
  apply init_inv in Hinit as [Hmap Htree].
  apply mapM_Forall2 in Hmap.
  set (j := Z.to_nat index).
  assert (Hj : (j < 2 ^ k)%nat) by lia.
  destruct (nth_error items j) as [item|] eqn:Hitem;
    [|apply nth_error_None in Hitem; lia].
  destruct (Forall2_nth_error_left _ items (leaves self) j item Hmap Hitem)
    as (h & Hh & Hhash).
  destruct (pow2_proof_loop k (leaves self) j [] ltac:(lia) Hj)
    as (Hheight & steps & root & Hloop & Hsteps & Hlast & Hfold).
  exists item, steps, (Some root).
  split; [rewrite <- (Z2Nat.id index) by lia; now apply py_index_nat|].
  split.
  { unfold get_proof.
    destruct (Z.ltb_spec index 0) as [?|_]; [lia|].
    destruct (Z.geb_spec index (Z.of_nat (length (leaves self)))) as [?|_]; [lia|].
    cbn [orb]. rewrite Htree, Hheight.
    replace (S k - 1)%nat with k by lia.
    rewrite <- (Z2Nat.id index) by lia. exact Hloop. }
  split; [unfold get_tree_height; rewrite Htree, Hheight, Hsteps; lia|].
  split; [apply get_root_top; now rewrite Htree|].
  unfold verify_proof. rewrite Hhash. cbn [bind].
  apply nth_error_nth with (d := EmptyString) in Hh.
  fold j in Hfold. rewrite Hh in Hfold. rewrite Hfold, String.eqb_refl. reflexivity.
Qed.

Lemma pow2_proof_round_trip_witness :
  exists item proof root,
    py_index demo_abcd 2 = Ok item /\
    get_proof (built demo_abcd) 2 = Ok proof /\
    length proof = (get_tree_height (built demo_abcd) - 1)%nat /\
    get_root (built demo_abcd) = Ok root /\
    verify_proof item proof root = Ok true.
Proof.
  apply (pow2_proof_round_trip demo_abcd (built demo_abcd) 2 2).
  - vm_compute. reflexivity.
  - reflexivity.
  - simpl. lia.
Defined.

(** The scenario of the specification: four leaves, height 3, a proof of
    two steps for index 2. *)
Example abcd_height : get_tree_height (built demo_abcd) = 3%nat.
Proof. vm_compute. reflexivity. Qed.

Example abcd_proof_length :
  (proof <- get_proof (built demo_abcd) 2 ;; Ok (length proof)) = Ok 2%nat.
Proof. vm_compute. reflexivity. Qed.

(** ** C8: hashing records *)

Lemma string_leb_trans (s1 s2 s3 : string) :
  String.leb s1 s2 = true -> String.leb s2 s3 = true -> String.leb s1 s3 = true.
Proof.
  unfold String.leb. revert s2 s3.
  induction s1 as [|c1 s1 IH]; intros [|c2 s2] [|c3 s3]; cbn [String.compare];
    try reflexivity; try discriminate.
  unfold Ascii.compare.
  destruct (N.compare_spec (N_of_ascii c1) (N_of_ascii c2)) as [E12|L12|G12];
    destruct (N.compare_spec (N_of_ascii c2) (N_of_ascii c3)) as [E23|L23|G23];
    destruct (N.compare_spec (N_of_ascii c1) (N_of_ascii c3)) as [E13|L13|G13];
    try reflexivity; try discriminate; try lia.
  apply IH.
Qed.

Lemma string_leb_antisym_neq (s1 s2 : string) :
  s1 <> s2 -> String.leb s1 s2 = true -> String.leb s2 s1 = false.
Proof.
  intros Hne H12. destruct (String.leb s2 s1) eqn:H21; [|reflexivity].
  exfalso. apply Hne. now apply String.leb_antisym.
Qed.

(** Inserting two items with different keys gives the same list in either
    order. *)
Lemma insert_comm (a b : string * jval) (l : pydict) :
  fst a <> fst b -> JSON.insert a (JSON.insert b l) = JSON.insert b (JSON.insert a l).
Proof.
  intros Hab.
  assert (Hba : fst b <> fst a) by congruence.
  induction l as [|y l IH].
  - cbn [JSON.insert].
    destruct (String.leb (fst a) (fst b)) eqn:Eab.
    + now rewrite (string_leb_antisym_neq _ _ Hab Eab).
    + destruct (String.leb_total (fst a) (fst b)) as [E|E]; [congruence|].
      now rewrite E.
  - cbn [JSON.insert].
    destruct (String.leb (fst b) (fst y)) eqn:Eby;
      destruct (String.leb (fst a) (fst y)) eqn:Eay;
      cbn [JSON.insert]; rewrite ?Eby, ?Eay.
    + destruct (String.leb (fst a) (fst b)) eqn:Eab.
      * rewrite (string_leb_antisym_neq _ _ Hab Eab). reflexivity.
      * destruct (String.leb_total (fst a) (fst b)) as [E|E]; [congruence|].
        rewrite E. reflexivity.
    + destruct (String.leb (fst a) (fst b)) eqn:Eab; [|reflexivity].
      rewrite (string_leb_trans _ _ _ Eab Eby) in Eay. discriminate.
    + destruct (String.leb (fst b) (fst a)) eqn:Eba; [|reflexivity].
      rewrite (string_leb_trans _ _ _ Eba Eay) in Eby. discriminate.
    + now rewrite IH.
Qed.

Lemma sort_items_permutation_invariant (d1 d2 : pydict) :
  Permutation d1 d2 -> NoDup (map fst d1) ->
  JSON.sort_items d1 = JSON.sort_items d2.
Proof.
  induction 1 as [| x l l' Hp IH | x y l | l l' l'' Hp1 IH1 Hp2 IH2]; intros Hnd.
  - reflexivity.
  - cbn [JSON.sort_items]. rewrite IH; [reflexivity|].
    cbn [map] in Hnd. now inversion Hnd.
  - cbn [JSON.sort_items]. apply insert_comm.
    cbn [map] in Hnd. inversion Hnd as [|? ? Hin _]. subst.
    intros E. apply Hin. left. congruence.
  - rewrite IH1 by assumption. apply IH2.
    apply (Permutation_NoDup (l := map fst l)); [|assumption].
    now apply Permutation_map.
Qed.

(** The model of [sort_keys] does sort: its result holds the same items,
    with keys in non-decreasing order. *)
Lemma insert_permutation (a : string * jval) (l : pydict) :
  Permutation (JSON.insert a l) (a :: l).
Proof.
  induction l as [|y l IH]; cbn [JSON.insert]; [reflexivity|].
  destruct (String.leb (fst a) (fst y)); [reflexivity|].
  rewrite IH. apply perm_swap.
Qed.

Lemma sort_items_permutation (d : pydict) : Permutation (JSON.sort_items d) d.
Proof.
  induction d as [|a d IH]; cbn [JSON.sort_items]; [reflexivity|].
  rewrite insert_permutation. now constructor.
Qed.

Lemma insert_sorted (a : string * jval) (l : pydict) :
  Sorted (fun x y => String.leb (fst x) (fst y) = true) l ->
  Sorted (fun x y => String.leb (fst x) (fst y) = true) (JSON.insert a l).
Proof.
  induction 1 as [|y l Hs IH Hhd]; cbn [JSON.insert].
  - repeat constructor.
  - destruct (String.leb (fst a) (fst y)) eqn:Eay.
    + constructor; [now constructor | now constructor].
    + constructor; [exact IH|].
      destruct (String.leb_total (fst a) (fst y)) as [E|E]; [congruence|].
      destruct Hhd as [|z l Hyz]; cbn [JSON.insert]; [now constructor|].
      destruct (String.leb (fst a) (fst z)); now constructor.
Qed.

Lemma sort_items_sorted (d : pydict) :
  Sorted (fun x y => String.leb (fst x) (fst y) = true) (JSON.sort_items d).
Proof.
  induction d as [|a d IH]; cbn [JSON.sort_items]; [constructor|].
  now apply insert_sorted.
Qed.

(** C8.  Two records with the same key/value pairs, entered in any order,
    are dumped to the same JSON text and so have the same leaf hash; a
    plain string is hashed as its UTF-8 bytes, as it stands. *)
Theorem record_hash_canonical (d1 d2 : pydict) (s : string) :
  NoDup (map fst d1) ->
  Permutation d1 d2 ->
  JSON.dumps d1 = JSON.dumps d2 /\
  Question6._hash_data (PDict d1) = Question6._hash_data (PDict d2) /\
  Question6._hash_data (PStr s)
  = Ok (SHA256.hex (SHA256.digest (SHA256.bytes_of_string s))).
Proof.
  intros Hnd Hperm.
  assert (Hdumps : JSON.dumps d1 = JSON.dumps d2).
  { unfold JSON.dumps. now rewrite (sort_items_permutation_invariant d1 d2). }
  split; [exact Hdumps|]. split; [|reflexivity].
  cbn [Question6._hash_data]. now rewrite Hdumps.
Qed.

Lemma record_hash_canonical_witness :
  Question6._hash_data
    (PDict [("id", JInt 2); ("name", JStr "Bob"); ("balance", JFloat "200.0")]%string)
  = Question6._hash_data
    (PDict [("balance", JFloat "200.0"); ("name", JStr "Bob"); ("id", JInt 2)]%string).
Proof.
  refine (proj1 (proj2 (record_hash_canonical _ _ EmptyString _ _))).
  - repeat constructor; cbn; intuition discriminate.
  - eapply perm_trans; [apply perm_swap|].
    eapply perm_trans; [apply perm_skip, perm_swap|].
    eapply perm_trans; [apply perm_swap|].
    apply Permutation_refl.
Defined.

(** As a string, the JSON text of a record is hashed as it stands: the
    text with the keys in the other order has another hash, where the two
    records have the same one. *)
Example json_text_not_canonical :
  let q := JSON.dquote in
  let sorted := ("{" ++ q ++ "a" ++ q ++ ": 1, " ++ q ++ "b" ++ q ++ ": 2}")%string in
  let swapped := ("{" ++ q ++ "b" ++ q ++ ": 2, " ++ q ++ "a" ++ q ++ ": 1}")%string in
  JSON.dumps [("b", JInt 2); ("a", JInt 1)]%string = sorted /\
  Question6._hash_data (PStr swapped) <> Question6._hash_data (PStr sorted).
Proof. split; [reflexivity | vm_compute; discriminate]. Qed.

(** ** C1: proofs on a tree with an odd level *)

(** On every tree of three leaves the proof of the third leaf has the one
    step of level 1, and the verifier accepts it only if hashing the leaf
    itself in the place of its parent gives the root. *)
Lemma three_leaf_proof_needs_collision
    (a b c : pyval) (self : MerkleTree) (ha hb hc : string) :
  __init__ [a; b; c] = Ok self ->
  leaves self = [ha; hb; hc] ->
  (root <- get_root self ;;
   proof <- get_proof self 2 ;;
   verify_proof c proof root) = Ok true ->
  hash_str (hash_str (ha ++ hb) ++ hc)
  = hash_str (hash_str (ha ++ hb) ++ hash_str (hc ++ hc)).
Proof.
  intros Hinit Hleaves.
  apply init_inv in Hinit as [Hmap Htree].
  rewrite Hleaves in Hmap, Htree.
  apply mapM_Forall2 in Hmap.
  assert (Hc : _hash_data c = Ok hc).
  { inversion Hmap as [|? ? ? ? _ H1]; subst.
    inversion H1 as [|? ? ? ? _ H2]; subst.
    now inversion H2. }
  rewrite build_tree_step in Htree by (simpl; lia).
  cbn [next_level] in Htree.
  rewrite build_tree_step in Htree by (simpl; lia).
  cbn [next_level] in Htree.
  rewrite build_tree_short in Htree by (simpl; lia).
  unfold get_root, get_proof. rewrite Htree, Hleaves.
  cbn. unfold verify_proof. rewrite Hc. cbn.
  unfold verify_step. cbn.
  intros H. injection H as H. now apply String.eqb_eq in H.
Qed.

(** C1 (fails on the code).  With three items the leaf level is odd: the
    builder pairs the last leaf with itself, [get_proof(2)] finds no
    sibling at level 0 and records no step, and the verifier, which has
    nothing to combine at that level, rejects the proof of the third
    item against the root of the same tree. *)
Theorem odd_tree_proof_rejected :
  py_index demo_abc 2 = Ok (PStr "c") /\
  (self <- __init__ demo_abc ;;
   root <- get_root self ;;
   proof <- get_proof self 2 ;;
   Ok (length proof, get_tree_height self)) = Ok (1%nat, 3%nat) /\
  (self <- __init__ demo_abc ;;
   root <- get_root self ;;
   proof <- get_proof self 2 ;;
   verify_proof (PStr "c") proof root) = Ok false.
Proof.
  split; [reflexivity|]. split; vm_compute; reflexivity.
Qed.

(** ** C2 and C4: the integrity check *)

(** C2 (fails on the code).  [check_integrity] compares
    [self.tree[level][i]] with the hash of [self.tree[level][2i]] and
    [self.tree[level][2i + 1]], two nodes of the same level, instead of
    the children one level below: on the tree of question3.py's own
    demonstration, just built, it returns [False]; so it does on a tree
    just updated. *)
Theorem check_integrity_rejects_fresh_tree :
  (self <- __init__ demo_ab ;; check_integrity self) = Ok false /\
  check_integrity (snd (update_leaf (built demo_abcd) 2 (PStr "z"))) = Ok false.
Proof.
  split; vm_compute; reflexivity.
Qed.

(** The only trees the check accepts after construction are those on which
    its loops do not run. *)
Lemma check_integrity_short (items : list pyval) (self : MerkleTree) :
  __init__ items = Ok self -> (length items <= 1)%nat ->
  check_integrity self = Ok true.
Proof.
  intros Hinit Hlen.
  pose proof (init_leaves_length items self Hinit) as Hl.
  apply init_inv in Hinit as [_ Ht].
  unfold check_integrity. rewrite Ht, build_tree_short by lia. reflexivity.
Qed.

(** With two leaves or more, the level below the root holds two nodes [x]
    and [y], and the first comparison the check makes is of [x] with the
    hash of [x + y]: it can only return [True] on a fixed point of the
    hash. *)
Lemma build_tree_penultimate (l : list string) :
  (2 <= length l)%nat ->
  exists pre x y, _build_tree l = pre ++ [[x; y]; [hash_str (x ++ y)]].
Proof.
  induction l as [l Hl | l Hl IH] using build_tree_ind; intros H2; [lia|].
  rewrite build_tree_step by assumption.
  destruct (le_lt_dec (length (next_level l)) 1) as [Hshort|Hlong].
  - rewrite build_tree_short by assumption.
    rewrite next_level_length in Hshort.
    destruct l as [|x [|y [|z l]]]; cbn [length] in *; try lia.
    + exists [], x, y. reflexivity.
    + exfalso. replace (S (S (S (length l))) + 1)%nat with (length l + 2 * 2)%nat in Hshort by lia.
      rewrite Nat.div_add in Hshort by lia. lia.
  - destruct (IH ltac:(lia)) as (pre & x & y & Hpre).
    exists (l :: pre), x, y. now rewrite Hpre.
Qed.

Lemma check_integrity_true_needs_fixed_point (items : list pyval) (self : MerkleTree) :
  __init__ items = Ok self -> (2 <= length items)%nat ->
  check_integrity self = Ok true ->
  exists x y, hash_str (x ++ y) = x.
Proof.
  intros Hinit Hlen.
  pose proof (init_leaves_length items self Hinit) as Hl.
  apply init_inv in Hinit as [_ Ht].
  destruct (build_tree_penultimate (leaves self) ltac:(lia)) as (pre & x & y & Hpre).
  unfold check_integrity. rewrite Ht, Hpre.
  rewrite length_app. cbn [length].
  replace (length pre + 2 - 1)%nat with (S (length pre)) by lia.
  rewrite seq_S, rev_app_distr. cbn [rev app Nat.add check_levels].
  rewrite (py_index_nat _ (length pre) [x; y]);
    [|rewrite nth_error_app2 by lia; now rewrite Nat.sub_diag].
  cbn [bind length seq check_nodes]. unfold combined_at.
  cbn [Nat.mul Nat.add nth_error combine_hashes _hash_data bind].
  rewrite (py_index_nat [x; y] 0 x eq_refl). cbn [bind].
  fold (hash_str (x ++ y)).
  destruct (String.eqb_spec x (hash_str (x ++ y))) as [E|_]; [|discriminate].
  intros _. now exists x, y.
Qed.


(** * Further properties of the class *)

(** ** The constructor and [get_root] *)

Lemma mapM_hash_data (items : list pyval) :
  if forallb hashable items
  then exists hs, mapM _hash_data items = Ok hs
  else mapM _hash_data items = Raise TypeError.
Proof.
  induction items as [|a items IH]; cbn [forallb mapM].
  - now exists [].
  - destruct a as [|s|b|d]; cbn [hashable _hash_data andb bind]; try reflexivity.
    + destruct (forallb hashable items).
      * destruct IH as [hs ->]. cbn [bind]. eauto.
      * now rewrite IH.
    + destruct (forallb hashable items).
      * destruct IH as [hs ->]. cbn [bind]. eauto.
      * now rewrite IH.
Qed.

(** On items that can all be hashed, [built] is the constructed object. *)
Lemma init_built (items : list pyval) :
  forallb hashable items = true -> __init__ items = Ok (built items).
Proof.
  intros Hall. pose proof (mapM_hash_data items) as H. rewrite Hall in H.
  destruct H as [hs Hhs]. unfold built, __init__. rewrite Hhs. reflexivity.
Qed.


(** X2.  On a constructed tree [get_root] raises [IndexError] exactly when
    there was no item; otherwise it returns the single hash of the top
    level.  It never returns [None]. *)
Theorem get_root_of_built_tree (items : list pyval) (self : MerkleTree) :
  __init__ items = Ok self ->
  (get_root self = Raise IndexError <-> items = []) /\
  (items <> [] -> exists root,
      get_root self = Ok (Some root) /\ last (tree self) [] = [root]) /\
  get_root self <> Ok None.
Proof.
  intros Hinit.
  pose proof (init_leaves_length items self Hinit) as Hlen.
  apply init_inv in Hinit as [_ Htree].
  destruct items as [|item items].
  - destruct (leaves self) as [|h hs] eqn:Hl; [|discriminate].
    unfold get_root. rewrite Htree.
    split; [split; reflexivity|]. split; [congruence | discriminate].
  - assert (Hne : leaves self <> []) by (intros E; rewrite E in Hlen; discriminate).
    destruct (build_tree_top (leaves self) Hne) as [root Hroot].
    rewrite <- Htree in Hroot.
    rewrite (get_root_top self root Hroot).
    split; [split; discriminate|]. split; [intros _; eauto | discriminate].
Qed.

Lemma get_root_of_built_tree_witness :
  exists root,
    get_root (built demo_abc) = Ok (Some root) /\
    last (tree (built demo_abc)) [] = [root].
Proof.
  apply (get_root_of_built_tree demo_abc (built demo_abc)).
  - apply init_built. reflexivity.
  - discriminate.
Defined.

(** X3.  A tree of one item: its height is 1, its root is the hash of the
    item, the proof of index 0 is empty and is accepted. *)
Theorem single_item_tree (item : pyval) (self : MerkleTree) :
  __init__ [item] = Ok self ->
  exists h,
    _hash_data item = Ok h /\
    tree self = [[h]] /\
    get_tree_height self = 1%nat /\
    get_root self = Ok (Some h) /\
    get_proof self 0 = Ok [] /\
    verify_proof item [] (Some h) = Ok true.
Proof.
  unfold __init__. cbn [mapM].
  destruct (_hash_data item) as [h|e] eqn:Hh; cbn [bind]; [|discriminate].
  intros H. injection H as <-. exists h.
  unfold verify_proof. rewrite Hh. cbn [bind fold_left]. rewrite String.eqb_refl.
  repeat split.
Qed.

Lemma single_item_tree_witness :
  exists h,
    _hash_data (PStr "a") = Ok h /\
    tree (built [PStr "a"]) = [[h]] /\
    get_tree_height (built [PStr "a"]) = 1%nat /\
    get_root (built [PStr "a"]) = Ok (Some h) /\
    get_proof (built [PStr "a"]) 0 = Ok [] /\
    verify_proof (PStr "a") [] (Some h) = Ok true.
Proof.
  apply (single_item_tree (PStr "a") (built [PStr "a"])).
  apply init_built. reflexivity.
Defined.

(** ** [find_sibling] *)

Lemma lxor_1_cases (i : Z) :
  (0 <= i)%Z ->
  (Z.even i = true /\ Z.lxor i 1 = i + 1)%Z \/
  (Z.even i = false /\ Z.lxor i 1 = i - 1)%Z.
Proof.
  intros Hi.
  pose proof (Z.div_mod i 2 ltac:(lia)) as Hd.
  pose proof (Z.mod_pos_bound i 2 ltac:(lia)) as Hr.
  assert (Hm : (0 <= i / 2)%Z) by (apply Z.div_pos; lia).
  destruct (Z.eq_dec (i mod 2) 0) as [E|E].
  - left. split.
    + replace i with (2 * (i / 2))%Z by lia. now rewrite Z.even_mul.
    + replace i with (2 * (i / 2))%Z at 1 by lia. rewrite lxor_1_even; lia.
  - right. split.
    + replace i with (2 * (i / 2) + 1)%Z by lia.
      now rewrite Z.even_add, Z.even_mul.
    + replace i with (2 * (i / 2) + 1)%Z at 1 by lia. rewrite lxor_1_odd; lia.
Qed.

Lemma lxor_1_involutive (i : Z) : Z.lxor (Z.lxor i 1) 1 = i.
Proof. now rewrite Z.lxor_assoc, Z.lxor_nilpotent, Z.lxor_0_r. Qed.

Lemma py_index_0 {A : Type} (l : list A) (a : A) :
  nth_error l 0 = Some a -> py_index l 0 = Ok a.
Proof. exact (py_index_nat l 0 a). Qed.

Lemma find_sibling_in_range (self : MerkleTree) (index : Z) :
  nth_error (tree self) 0 = Some (leaves self) ->
  (0 <= index < Z.of_nat (length (leaves self)))%Z ->
  find_sibling self index
  = Ok (nth_error (leaves self) (Z.to_nat (Z.lxor index 1))).
Proof.
  intros H0 [Hlo Hhi]. unfold find_sibling.
  destruct (Z.ltb_spec index 0) as [?|_]; [lia|].
  destruct (Z.geb_spec index (Z.of_nat (length (leaves self)))) as [?|_]; [lia|].
  cbn [orb]. rewrite !(py_index_0 (tree self) (leaves self) H0). cbn [bind].
  assert (Hs : (0 <= Z.lxor index 1)%Z) by (apply Z.lxor_nonneg; lia).
  destruct (Z.geb_spec (Z.lxor index 1) (Z.of_nat (length (leaves self)))) as [Hout|Hin].
  - symmetry. f_equal. apply nth_error_None. lia.
  - destruct (nth_error (leaves self) (Z.to_nat (Z.lxor index 1))) as [h|] eqn:Hn;
      [|apply nth_error_None in Hn; lia].
    rewrite <- (Z2Nat.id (Z.lxor index 1)) at 1 by lia.
    rewrite (py_index_nat _ _ h Hn). reflexivity.
Qed.

(** X4.  [find_sibling] raises [IndexError] outside [0, n); inside, it
    returns the leaf at [index ^ 1], and [None] exactly for the last leaf
    of an odd number of leaves. *)
Theorem find_sibling_spec (items : list pyval) (self : MerkleTree) (index : Z) :
  __init__ items = Ok self ->
  let n := Z.of_nat (length items) in
  ((index < 0 \/ n <= index)%Z -> find_sibling self index = Raise IndexError) /\
  ((0 <= index < n)%Z ->
   find_sibling self index
   = Ok (nth_error (leaves self) (Z.to_nat (Z.lxor index 1))) /\
   (find_sibling self index = Ok None <-> (index = n - 1 /\ Z.odd n = true)%Z)).
Proof.
  intros Hinit n.
  pose proof (init_leaves_length items self Hinit) as Hlen.
  apply init_inv in Hinit as [_ Htree].
  assert (H0 : nth_error (tree self) 0 = Some (leaves self))
    by (rewrite Htree; apply build_tree_level0).
  subst n. rewrite <- Hlen. split.
  - intros Hout. unfold find_sibling.
    destruct (Z.ltb_spec index 0) as [?|?]; [reflexivity|].
    destruct (Z.geb_spec index (Z.of_nat (length (leaves self)))) as [?|?];
      [reflexivity | lia].
  - intros Hin. rewrite (find_sibling_in_range self index H0 Hin).
    split; [reflexivity|].
    set (n := Z.of_nat (length (leaves self))) in *.
    assert (Hs : (0 <= Z.lxor index 1)%Z) by (apply Z.lxor_nonneg; lia).
    assert (Hnone : nth_error (leaves self) (Z.to_nat (Z.lxor index 1)) = None
                    <-> (n <= Z.lxor index 1)%Z).
    { rewrite nth_error_None. unfold n. lia. }
    rewrite <- Z.negb_even.
    destruct (lxor_1_cases index ltac:(lia)) as [[Hev Hx]|[Hev Hx]]; split.
    + intros E. injection E as E. apply Hnone in E.
      assert (Hn : n = (index + 1)%Z) by lia.
      split; [lia|]. rewrite Hn, Z.even_add, Hev. reflexivity.
    + intros [E _]. f_equal. apply Hnone. lia.
    + intros E. injection E as E. apply Hnone in E. lia.
    + intros [E Hodd]. exfalso.
      assert (Hn : n = (index + 1)%Z) by lia.
      rewrite Hn, Z.even_add, Hev in Hodd. discriminate.
Qed.

Lemma find_sibling_spec_witness :
  find_sibling (built demo_abc) 2 = Ok None /\
  find_sibling (built demo_abc) 3 = Raise IndexError.
Proof.
  assert (Hinit : __init__ demo_abc = Ok (built demo_abc))
    by (apply init_built; reflexivity).
  split.
  - destruct (find_sibling_spec demo_abc (built demo_abc) 2 Hinit) as [_ Hin].
    destruct (Hin ltac:(simpl; lia)) as [_ Hnone]. apply Hnone. split; reflexivity.
  - destruct (find_sibling_spec demo_abc (built demo_abc) 3 Hinit) as [Hout _].
    apply Hout. simpl. lia.
Defined.

(** X5.  The sibling of a leaf's sibling is the leaf itself. *)
Theorem find_sibling_involutive
    (items : list pyval) (self : MerkleTree) (index : Z) (h : string) :
  __init__ items = Ok self ->
  find_sibling self index = Ok (Some h) ->
  exists own,
    nth_error (leaves self) (Z.to_nat index) = Some own /\
    find_sibling self (Z.lxor index 1) = Ok (Some own).
Proof.
  intros Hinit Hsib.
  apply init_inv in Hinit as [_ Htree].
  assert (H0 : nth_error (tree self) 0 = Some (leaves self))
    by (rewrite Htree; apply build_tree_level0).
  assert (Hin : (0 <= index < Z.of_nat (length (leaves self)))%Z).
  { unfold find_sibling in Hsib.
    destruct (Z.ltb_spec index 0) as [?|?]; [discriminate|].
    destruct (Z.geb_spec index (Z.of_nat (length (leaves self)))) as [?|?];
      [discriminate | lia]. }
  rewrite (find_sibling_in_range self index H0 Hin) in Hsib.
  injection Hsib as Hsib.
  assert (Hs : (0 <= Z.lxor index 1)%Z) by (apply Z.lxor_nonneg; lia).
  assert (Hs' : (Z.to_nat (Z.lxor index 1) < length (leaves self))%nat)
    by (apply nth_error_Some; congruence).
  destruct (nth_error (leaves self) (Z.to_nat index)) as [own|] eqn:Hown;
    [|apply nth_error_None in Hown; lia].
  exists own. split; [reflexivity|].
  rewrite (find_sibling_in_range self (Z.lxor index 1) H0) by lia.
  now rewrite lxor_1_involutive, Hown.
Qed.

Lemma find_sibling_involutive_witness :
  exists own,
    nth_error (leaves (built demo_abcd)) (Z.to_nat 2) = Some own /\
    find_sibling (built demo_abcd) (Z.lxor 2 1) = Ok (Some own).
Proof.
  apply (find_sibling_involutive demo_abcd (built demo_abcd) 2 (hash_str "d")).
  - apply init_built. reflexivity.
  - vm_compute. reflexivity.
Defined.

(** ** [update_leaf] and [test_immutability] *)

Lemma Forall2_mapM {A B : Type} (f : A -> result B) (l : list A) (l' : list B) :
  Forall2 (fun a b => f a = Ok b) l l' -> mapM f l = Ok l'.
Proof.
  induction 1 as [|a b l l' Hab _ IH]; [reflexivity|].
  cbn [mapM]. rewrite Hab. cbn [bind]. rewrite IH. reflexivity.
Qed.

Lemma Forall2_py_setitem {A B : Type} (R : A -> B -> Prop)
    (l : list A) (l' : list B) (i : nat) (a : A) (b : B) :
  Forall2 R l l' -> R a b -> Forall2 R (py_setitem l i a) (py_setitem l' i b).
Proof.
  intros H Hab. unfold py_setitem.
  apply Forall2_app.
  - revert i. induction H; intros [|i]; cbn [firstn]; constructor; auto.
  - constructor; [exact Hab|].
    generalize (S i). intros k. revert k.
    induction H; intros [|k]; cbn [skipn]; try constructor; auto.
Qed.

Lemma py_setitem_same {A : Type} (l : list A) (i : nat) (v : A) :
  nth_error l i = Some v -> py_setitem l i v = l.
Proof.
  unfold py_setitem. revert i.
  induction l as [|x l IH]; intros [|i] H; try discriminate.
  - injection H as ->. reflexivity.
  - cbn [firstn skipn app]. f_equal. cbn [nth_error] in H.
    specialize (IH i H). exact IH.
Qed.

(** X6.  A successful [update_leaf] on a constructed tree gives the object
    that the constructor builds from the item list with the item at
    [index] replaced. *)
Theorem update_leaf_is_rebuild
    (items : list pyval) (self self' : MerkleTree) (index : Z) (new_value : pyval) :
  __init__ items = Ok self ->
  update_leaf self index new_value = (Ok tt, self') ->
  __init__ (py_setitem items (Z.to_nat index) new_value) = Ok self'.
Proof.
  intros Hinit Hup.
  apply init_inv in Hinit as [Hmap _]. apply mapM_Forall2 in Hmap.
  apply update_leaf_inv in Hup as (Hidx & h & Hh & Hl & Ht).
  unfold __init__.
  rewrite (Forall2_mapM _hash_data _ (leaves self')).
  - cbn [bind]. destruct self' as [lv tr]. cbn [leaves tree] in *. now subst tr.
  - rewrite Hl. now apply Forall2_py_setitem.
Qed.

Lemma update_leaf_is_rebuild_witness :
  __init__ (py_setitem demo_abcd (Z.to_nat 2) (PStr "z"))
  = Ok (snd (update_leaf (built demo_abcd) 2 (PStr "z"))).
Proof.
  apply (update_leaf_is_rebuild demo_abcd (built demo_abcd)).
  - apply init_built. reflexivity.
  - vm_compute. reflexivity.
Defined.

Lemma update_leaf_same_item_core
    (items : list pyval) (self : MerkleTree) (index : Z) (item : pyval) :
  __init__ items = Ok self ->
  (0 <= index)%Z ->
  py_index items index = Ok item ->
  update_leaf self index item = (Ok tt, self).
Proof.
  intros Hinit Hlo Hitem.
  pose proof (init_leaves_length items self Hinit) as Hlen.
  apply init_inv in Hinit as [Hmap Htree]. apply mapM_Forall2 in Hmap.
  assert (Hhi : (index < Z.of_nat (length items))%Z).
  { destruct (Z.lt_ge_cases index (Z.of_nat (length items))) as [?|Hge]; [assumption|].
    unfold py_index in Hitem.
    destruct (Z.ltb_spec index 0); [lia|].
    destruct (Z.ltb_spec index (Z.of_nat (length items))); [lia|].
    rewrite andb_false_r in Hitem. discriminate. }
  destruct (nth_error items (Z.to_nat index)) as [item'|] eqn:Hn;
    [|apply nth_error_None in Hn; lia].
  assert (item' = item).
  { rewrite <- (Z2Nat.id index) in Hitem by lia.
    rewrite (py_index_nat _ _ item' Hn) in Hitem. congruence. }
  subst item'.
  destruct (Forall2_nth_error_left _ items (leaves self) _ item Hmap Hn)
    as (h & Hh & Hhash).
  unfold update_leaf.
  destruct (Z.ltb_spec index 0) as [?|_]; [lia|].
  destruct (Z.geb_spec index (Z.of_nat (length (leaves self)))) as [?|_]; [lia|].
  cbn [orb]. rewrite Hhash, (py_setitem_same _ _ h Hh), <- Htree.
  now destruct self.
Qed.

(** X7.  Updating a leaf with the item it already holds leaves the object
    as it was: same leaves, same levels, same root. *)
Theorem update_leaf_same_item
    (items : list pyval) (self : MerkleTree) (index : Z) (item : pyval) :
  __init__ items = Ok self ->
  (0 <= index)%Z ->
  py_index items index = Ok item ->
  update_leaf self index item = (Ok tt, self).
Proof.
  intros Hinit Hlo Hitem. now apply (update_leaf_same_item_core items).
Qed.

Lemma update_leaf_same_item_witness :
  update_leaf (built demo_abc) 1 (PStr "b") = (Ok tt, built demo_abc).
Proof.
  apply (update_leaf_same_item demo_abc (built demo_abc) 1 (PStr "b")).
  - apply init_built. reflexivity.
  - lia.
  - reflexivity.
Defined.

Lemma update_leaf_nonempty (self self' : MerkleTree) (index : Z) (new_value : pyval) :
  update_leaf self index new_value = (Ok tt, self') ->
  exists root, get_root self' = Ok (Some root).
Proof.
  intros Hup. pose proof Hup as Hinv.
  apply update_leaf_inv in Hinv as (Hidx & h & Hh & Hl & Ht).
  assert (Hne : leaves self' <> []).
  { intros E. apply (f_equal (@length string)) in Hl. rewrite E in Hl.
    rewrite py_setitem_length in Hl by lia. cbn in Hl. lia. }
  destruct (build_tree_top (leaves self') Hne) as [root Hroot].
  exists root. apply get_root_top. now rewrite Ht.
Qed.

(** X8.  When [test_immutability] raises, the object is as before the
    call: on a tree with no leaf [get_root] raises first, and
    [update_leaf] raises before it assigns.  When it prints, the object is
    the one [update_leaf] leaves. *)
Theorem test_immutability_atomic
    (self self' : MerkleTree) (index : Z) (new_value : pyval) :
  (forall e, test_immutability self index new_value = (Raise e, self') -> self' = self) /\
  (forall line, test_immutability self index new_value = (Ok line, self') ->
                update_leaf self index new_value = (Ok tt, self')).
Proof.
  unfold test_immutability.
  destruct (get_root self) as [original_root|e0].
  2: { split; [intros e H; now injection H | intros line H; discriminate]. }
  destruct (update_leaf self index new_value) as [[[]|e1] self1] eqn:Hup.
  - destruct (update_leaf_nonempty self self1 index new_value Hup) as [root ->].
    split; [intros e H; discriminate | intros line H; now injection H as _ <-].
  - split; [|intros line H; discriminate].
    intros e H. injection H as _ <-.
    unfold update_leaf in Hup.
    destruct ((index <? 0) || (index >=? Z.of_nat (length (leaves self))))%Z;
      [now injection Hup|].
    destruct (_hash_data new_value); [discriminate | now injection Hup].
Qed.

(** X9.  Called with the item that the leaf already holds,
    [test_immutability] prints that the roots match, and the object is
    unchanged. *)
Theorem test_immutability_same_item
    (items : list pyval) (self : MerkleTree) (index : Z) (item : pyval) :
  __init__ items = Ok self ->
  (0 <= index)%Z ->
  py_index items index = Ok item ->
  test_immutability self index item
  = (Ok "Roots match after modification: True"%string, self).
Proof.
  intros Hinit Hlo Hitem.
  pose proof (update_leaf_same_item_core items self index item Hinit Hlo Hitem) as Hup.
  destruct (update_leaf_nonempty self self index item Hup) as [root Hroot].
  unfold test_immutability. rewrite Hroot, Hup, Hroot.
  cbn [root_eqb]. rewrite String.eqb_refl. reflexivity.
Qed.

Lemma test_immutability_same_item_witness :
  test_immutability (built demo_abcd) 2 (PStr "c")
  = (Ok "Roots match after modification: True"%string, built demo_abcd).
Proof.
  apply (test_immutability_same_item demo_abcd (built demo_abcd) 2 (PStr "c")).
  - apply init_built. reflexivity.
  - lia.
  - reflexivity.
Defined.

(** The demonstration of question5.py prints that the roots differ. *)
Example test_immutability_demo :
  fst (test_immutability (built demo_abcd) 2 (PStr "z"))
  = Ok "Roots match after modification: False"%string.
Proof. vm_compute. reflexivity. Qed.

(** ** [check_integrity] on constructed trees *)

Lemma check_integrity_long (items : list pyval) (self : MerkleTree) :
  __init__ items = Ok self -> (2 <= length items)%nat ->
  check_integrity self = Ok false \/ check_integrity self = Raise TypeError.
Proof.
  intros Hinit Hlen.
  pose proof (init_leaves_length items self Hinit) as Hl.
  apply init_inv in Hinit as [_ Ht].
  destruct (build_tree_penultimate (leaves self) ltac:(lia)) as (pre & x & y & Hpre).
  unfold check_integrity. rewrite Ht, Hpre.
  rewrite length_app. cbn [length].
  replace (length pre + 2 - 1)%nat with (S (length pre)) by lia.
  rewrite seq_S, rev_app_distr. cbn [rev app Nat.add check_levels].
  rewrite (py_index_nat _ (length pre) [x; y]);
    [|rewrite nth_error_app2 by lia; now rewrite Nat.sub_diag].
  cbn [bind length seq check_nodes]. unfold combined_at.
  cbn [Nat.mul Nat.add nth_error combine_hashes _hash_data bind].
  rewrite (py_index_nat [x; y] 0 x eq_refl). cbn [bind].
  destruct (x =? SHA256.hexdigest (x ++ y))%string; cbn [negb bind]; auto.
Qed.

(** X10.  On a constructed tree [check_integrity] returns [True] exactly
    when there is at most one item.  With two items or more it returns
    [False], or raises [TypeError] from hashing [None] at a node whose two
    child indices are out of range. *)
Theorem check_integrity_true_iff (items : list pyval) (self : MerkleTree) :
  __init__ items = Ok self ->
  (check_integrity self = Ok true <-> (length items <= 1)%nat) /\
  ((2 <= length items)%nat ->
   check_integrity self = Ok false \/ check_integrity self = Raise TypeError).
Proof.
  intros Hinit. split; [split|].
  - intros Htrue.
    destruct (le_lt_dec (length items) 1) as [?|Hlong]; [assumption|].
    destruct (check_integrity_long items self Hinit Hlong) as [H|H];
      rewrite H in Htrue; discriminate.
  - now apply check_integrity_short.
  - now apply check_integrity_long.
Qed.

Lemma check_integrity_true_iff_witness :
  check_integrity (built [PStr "a"]) = Ok true /\
  check_integrity (built demo_abcd) <> Ok true.
Proof.
  split.
  - apply (check_integrity_true_iff [PStr "a"] (built [PStr "a"])).
    + apply init_built. reflexivity.
    + simpl. lia.
  - intros Htrue.
    apply (check_integrity_true_iff demo_abcd (built demo_abcd)) in Htrue.
    + simpl in Htrue. lia.
    + apply init_built. reflexivity.
Defined.

(** ** Item lists with the same root *)

Lemma next_level_of_pair_texts (l : list string) :
  mapM _hash_data (map PStr (pair_texts l)) = Ok (next_level l).
Proof.
  induction l as [| x | x y l IH] using list_pair_ind; try reflexivity.
  change (pair_texts (x :: y :: l)) with ((x ++ y)%string :: pair_texts l).
  change (next_level (x :: y :: l)) with (hash_str (x ++ y) :: next_level l).
  cbn [map mapM _hash_data bind]. rewrite IH. reflexivity.
Qed.

Lemma pair_texts_length (l : list string) :
  length (pair_texts l) = length (next_level l).
Proof.
  induction l as [| x | x y l IH] using list_pair_ind; try reflexivity.
  change (pair_texts (x :: y :: l)) with ((x ++ y)%string :: pair_texts l).
  change (next_level (x :: y :: l)) with (hash_str (x ++ y) :: next_level l).
  cbn [length]. now rewrite IH.
Qed.

Lemma get_root_last_level (self self' : MerkleTree) :
  tree self <> [] -> tree self' <> [] ->
  last (tree self) [] = last (tree self') [] ->
  get_root self = get_root self'.
Proof.
  unfold get_root.
  destruct (tree self) as [|x t]; [congruence|].
  destruct (tree self') as [|x' t']; [congruence|].
  intros _ _ Hlast.
  now rewrite (py_index_last x t []), (py_index_last x' t' []), Hlast.
Qed.

(** X11.  Nodes are hashed the way leaves are: the tree built from the
    strings [left + right] of the pairs of leaf hashes of a tree with two
    leaves or more is a shorter list of items with the same root. *)
Theorem root_of_pair_texts (items : list pyval) (self : MerkleTree) :
  __init__ items = Ok self ->
  (2 <= length items)%nat ->
  exists self',
    __init__ (map PStr (pair_texts (leaves self))) = Ok self' /\
    (length (leaves self') < length items)%nat /\
    get_root self' = get_root self.
Proof.
  intros Hinit Hlen.
  pose proof (init_leaves_length items self Hinit) as Hl.
  apply init_inv in Hinit as [_ Ht].
  exists (mkTree (next_level (leaves self)) (_build_tree (next_level (leaves self)))).
  split; [unfold __init__; now rewrite next_level_of_pair_texts|].
  cbn [leaves]. split.
  - rewrite next_level_length, <- Hl. apply Nat.Div0.div_lt_upper_bound. lia.
  - apply get_root_last_level; cbn [tree].
    + discriminate.
    + rewrite Ht. discriminate.
    + rewrite Ht, (build_tree_step (leaves self)) by lia. reflexivity.
Qed.

Lemma root_of_pair_texts_witness :
  exists self',
    __init__ (map PStr (pair_texts (leaves (built demo_abcd)))) = Ok self' /\
    (length (leaves self') < length demo_abcd)%nat /\
    get_root self' = get_root (built demo_abcd).
Proof.
  apply (root_of_pair_texts demo_abcd (built demo_abcd)).
  - apply init_built. reflexivity.
  - simpl. lia.
Defined.

Lemma next_level_dup_last (l : list string) (d : string) :
  Nat.Odd (length l) -> next_level (l ++ [last l d]) = next_level l.
Proof.
  induction l as [| x | x y l IH] using list_pair_ind; intros Hodd.
  - destruct Hodd as [k Hk]. simpl in Hk. lia.
  - reflexivity.
  - assert (Hodd' : Nat.Odd (length l)).
    { destruct Hodd as [k Hk]. cbn [length] in Hk. exists (k - 1)%nat. lia. }
    assert (Hne : l <> []).
    { intros ->. destruct Hodd' as [k Hk]. simpl in Hk. lia. }
    replace (last (x :: y :: l) d) with (last l d)
      by (destruct l; [congruence | reflexivity]).
    change ((x :: y :: l) ++ [last l d]) with (x :: y :: (l ++ [last l d])).
    change (next_level (x :: y :: l ++ [last l d]))
      with (hash_str (x ++ y) :: next_level (l ++ [last l d])).
    now rewrite IH.
Qed.

(** X12.  The builder pairs an unpaired last node with itself: a list of an
    odd number of items, three or more, and the same list with its last
    item repeated have the same root. *)
Theorem root_of_repeated_last_item
    (items : list pyval) (last_item : pyval) (self self' : MerkleTree) :
  __init__ (items ++ [last_item]) = Ok self ->
  __init__ (items ++ [last_item; last_item]) = Ok self' ->
  Nat.Even (length items) -> (2 <= length items)%nat ->
  get_root self' = get_root self.
Proof.
  intros Hinit Hinit' Heven Hlen.
  apply init_inv in Hinit as [Hmap Ht]. apply init_inv in Hinit' as [Hmap' Ht'].
  apply mapM_Forall2 in Hmap, Hmap'.
  apply Forall2_app_inv_l in Hmap as (hs & tl & Hhs & Htl & El).
  apply Forall2_app_inv_l in Hmap' as (hs' & tl' & Hhs' & Htl' & El').
  assert (Ehs : hs' = hs).
  { clear - Hhs Hhs'. revert hs' Hhs'.
    induction Hhs as [|a b l l' Hab _ IH]; intros hs' Hhs'; inversion Hhs'; subst;
      [reflexivity|].
    f_equal; [congruence | now apply IH]. }
  subst hs'.
  inversion Htl as [|? h ? ? Hh Hnil]; subst. inversion Hnil; subst.
  inversion Htl' as [|? h1 ? ? Hh1 Htl2]; subst.
  inversion Htl2 as [|? h2 ? ? Hh2 Hnil2]; subst. inversion Hnil2; subst.
  assert (h1 = h) by congruence. assert (h2 = h) by congruence. subst h1 h2.
  pose proof (Forall2_length Hhs) as Hlhs.
  assert (Hodd : Nat.Odd (length (hs ++ [h]))).
  { destruct Heven as [k Hk]. exists k. rewrite length_app. cbn [length]. lia. }
  assert (Hnext : next_level (hs ++ [h; h]) = next_level (hs ++ [h])).
  { pose proof (next_level_dup_last (hs ++ [h]) EmptyString Hodd) as Hd.
    rewrite last_last, <- app_assoc in Hd. exact Hd. }
  apply get_root_last_level.
  - rewrite Ht'. discriminate.
  - rewrite Ht. discriminate.
  - rewrite Ht, Ht', El, El'.
    rewrite (build_tree_step (hs ++ [h; h])) by (rewrite length_app; cbn [length]; lia).
    rewrite (build_tree_step (hs ++ [h])) by (rewrite length_app; cbn [length]; lia).
    rewrite Hnext. reflexivity.
Qed.

Lemma root_of_repeated_last_item_witness :
  get_root (built [PStr "a"; PStr "b"; PStr "c"; PStr "c"]) = get_root (built demo_abc).
Proof.
  apply (root_of_repeated_last_item [PStr "a"; PStr "b"] (PStr "c")).
  - apply init_built. reflexivity.
  - apply init_built. reflexivity.
  - exists 1%nat. reflexivity.
  - simpl. lia.
Defined.

(** ** What [get_proof] returns *)

Lemma py_index_In {A : Type} (l : list A) (i : Z) (a : A) :
  py_index l i = Ok a -> In a l.
Proof.
  unfold py_index.
  destruct ((0 <=? _) && _)%Z; [|discriminate].
  destruct (nth_error l _) as [a'|] eqn:Hn; [|discriminate].
  intros H. injection H as <-. eapply nth_error_In. eassumption.
Qed.

Lemma py_index_nonneg {A : Type} (l : list A) (i : Z) (a : A) :
  (0 <= i)%Z -> nth_error l (Z.to_nat i) = Some a -> py_index l i = Ok a.
Proof.
  intros Hi Hn. rewrite <- (Z2Nat.id i) by lia. now apply py_index_nat.
Qed.

Lemma get_proof_loop_steps (t : list (list string)) (levels : list nat) :
  forall (index : Z) (acc proof : list ProofStep),
    get_proof_loop t levels index acc = Ok proof ->
    exists steps,
      proof = acc ++ steps /\
      (length steps <= length levels)%nat /\
      Forall (fun s =>
                (position s = "left"%string \/ position s = "right"%string) /\
                exists lvl, In lvl t /\ In (hash s) lvl) steps.
Proof.
  induction levels as [|level levels IH]; intros index acc proof H.
  - cbn in H. injection H as <-. exists []. rewrite app_nil_r. repeat split; auto.
  - cbn [get_proof_loop] in H.
    destruct (py_index t (Z.of_nat level)) as [current|e] eqn:Hcur; [|discriminate].
    cbn [bind] in H.
    destruct (Z.lxor index 1 <? Z.of_nat (length current))%Z.
    + destruct (py_index current (Z.lxor index 1)) as [h|e] eqn:Hh; [|discriminate].
      cbn [bind] in H.
      destruct (IH _ _ _ H) as (steps & -> & Hlen & Hall).
      eexists (_ :: steps). rewrite <- app_assoc. split; [reflexivity|].
      split; [cbn [length]; lia|].
      constructor; [|exact Hall]. cbn [position hash]. split.
      * destruct (Z.lxor index 1 <? index)%Z; auto.
      * exists current. split; eapply py_index_In; eassumption.
    + cbn [bind] in H.
      destruct (IH _ _ _ H) as (steps & -> & Hlen & Hall).
      exists steps. repeat split; [cbn [length]; lia | exact Hall].
Qed.

(** X13.  A proof returned by [get_proof] has at most [height - 1] steps;
    every step is marked ['left'] or ['right'], so that [verify_proof]
    skips none of them, and its hash is a node of the tree. *)
Theorem get_proof_steps_well_formed
    (self : MerkleTree) (index : Z) (proof : list ProofStep) :
  get_proof self index = Ok proof ->
  (length proof <= get_tree_height self - 1)%nat /\
  Forall (fun s =>
            (position s = "left"%string \/ position s = "right"%string) /\
            exists lvl, In lvl (tree self) /\ In (hash s) lvl) proof.
Proof.
  unfold get_proof, get_tree_height.
  destruct ((index <? 0) || _)%Z; [discriminate|].
  intros H. apply get_proof_loop_steps in H as (steps & -> & Hlen & Hall).
  rewrite length_seq in Hlen. split; assumption.
Qed.

Lemma get_proof_steps_well_formed_witness :
  exists proof,
    get_proof (built demo_abc) 2 = Ok proof /\
    (length proof <= get_tree_height (built demo_abc) - 1)%nat.
Proof.
  assert (Hlen : length (leaves (built demo_abc)) = 3%nat)
    by (apply (init_leaves_length demo_abc), init_built; reflexivity).
  destruct (get_proof_in_range (built demo_abc) 2) as [proof Hproof];
    [rewrite Hlen; simpl; lia|].
  exists proof. split; [exact Hproof|].
  apply (get_proof_steps_well_formed (built demo_abc) 2 proof Hproof).
Defined.

Lemma get_proof_first_step
    (items : list pyval) (self : MerkleTree) (index : Z) (proof : list ProofStep) :
  __init__ items = Ok self ->
  get_proof self index = Ok proof ->
  (forall h, find_sibling self index = Ok (Some h) ->
             exists pos rest, proof = mkStep h pos :: rest) /\
  (find_sibling self index = Ok None ->
   (length proof <= get_tree_height self - 2)%nat).
Proof.
  intros Hinit Hproof.
  apply init_inv in Hinit as [_ Htree].
  assert (H0 : nth_error (tree self) 0 = Some (leaves self))
    by (rewrite Htree; apply build_tree_level0).
  assert (Hin : (0 <= index < Z.of_nat (length (leaves self)))%Z).
  { destruct (Z.lt_ge_cases index 0) as [Hneg|Hpos];
      [rewrite get_proof_out_of_range in Hproof by lia; discriminate|].
    destruct (Z.lt_ge_cases index (Z.of_nat (length (leaves self)))) as [?|Hge];
      [lia|].
    rewrite get_proof_out_of_range in Hproof by lia. discriminate. }
  rewrite (find_sibling_in_range self index H0 Hin).
  unfold get_proof, get_tree_height in *.
  destruct (Z.ltb_spec index 0) as [?|_]; [lia|].
  destruct (Z.geb_spec index (Z.of_nat (length (leaves self)))) as [?|_]; [lia|].
  cbn [orb] in Hproof.
  destruct (le_lt_dec (length (leaves self)) 1) as [Hshort|Hlong].
  - (* one leaf: no level is visited *)
    rewrite Htree, build_tree_short in * by assumption.
    cbn in Hproof. injection Hproof as <-.
    assert (index = 0%Z) by lia. subst index.
    destruct (leaves self) as [|x [|y l]]; cbn in *; try lia.
    split; [intros h E; discriminate | intros _; lia].
  - rewrite Htree, build_tree_step in * by assumption.
    cbn [length] in *. rewrite Nat.sub_succ, Nat.sub_0_r in Hproof.
    destruct (length (_build_tree (next_level (leaves self)))) as [|n] eqn:Hn;
      [discriminate|].
    cbn [seq get_proof_loop] in Hproof.
    rewrite (py_index_nat (leaves self :: _build_tree (next_level (leaves self)))
               0 (leaves self) eq_refl) in Hproof.
    cbn [bind] in Hproof.
    assert (Hs : (0 <= Z.lxor index 1)%Z) by (apply Z.lxor_nonneg; lia).
    destruct (Z.ltb_spec (Z.lxor index 1) (Z.of_nat (length (leaves self)))) as [Hlt|Hge].
    + destruct (nth_error (leaves self) (Z.to_nat (Z.lxor index 1))) as [h'|] eqn:Hh';
        [|apply nth_error_None in Hh'; lia].
      rewrite (py_index_nonneg _ _ h' Hs Hh') in Hproof. cbn [bind app] in Hproof.
      apply get_proof_loop_steps in Hproof as (steps & -> & _).
      split; [|discriminate].
      intros h E. injection E as <-. cbn [app]. eauto.
    + cbn [bind] in Hproof.
      apply get_proof_loop_steps in Hproof as (steps & -> & Hlen & _).
      rewrite length_seq in Hlen.
      split; [|intros _; cbn [app]; lia].
      intros h E. injection E as E.
      assert (Hnone : nth_error (leaves self) (Z.to_nat (Z.lxor index 1)) = None)
        by (apply nth_error_None; lia).
      congruence.
Qed.



(** ** The proof round trip beyond powers of two *)

Lemma sibling_step_in_range (l : list string) (j : nat) :
  (j < length l)%nat ->
  (Z.lxor (Z.of_nat j) 1 <? Z.of_nat (length l))%Z = true ->
  exists s,
    py_index l (Z.lxor (Z.of_nat j) 1) = Ok (hash s) /\
    position s = (if (Z.lxor (Z.of_nat j) 1 <? Z.of_nat j)%Z
                  then "left" else "right")%string /\
    (Z.of_nat j / 2)%Z = Z.of_nat (j / 2) /\
    nth_error (next_level l) (j / 2)
    = Some (verify_step (nth j l EmptyString) s).
Proof.
  intros Hj Hsib. apply Z.ltb_lt in Hsib.
  assert (Hdiv : (Z.of_nat j / 2)%Z = Z.of_nat (j / 2))
    by (now rewrite Nat2Z.inj_div).
  pose proof (Nat.div_mod_eq j 2) as Hdm.
  pose proof (Nat.mod_upper_bound j 2 ltac:(lia)) as Hr.
  set (m := (j / 2)%nat) in *.
  destruct (lxor_1_cases (Z.of_nat j) ltac:(lia)) as [[Hev Hx]|[Hev Hx]];
    rewrite Hx in *.
  - (* the sibling is [j + 1], on the right *)
    assert (Hjm : j = (2 * m)%nat).
    { destruct (j mod 2)%nat as [|[|r]] eqn:Hmod; [lia | | lia].
      exfalso. replace (Z.of_nat j) with (2 * Z.of_nat m + 1)%Z in Hev by lia.
      rewrite Z.even_add, Z.even_mul in Hev. discriminate. }
    exists (mkStep (nth (2 * m + 1) l EmptyString) "right"). cbn [hash position].
    split; [replace (Z.of_nat j + 1)%Z with (Z.of_nat (2 * m + 1)) by lia;
            apply py_index_nat, nth_error_nth'; lia|].
    split; [destruct (Z.ltb_spec (Z.of_nat j + 1) (Z.of_nat j)); [lia | reflexivity]|].
    split; [exact Hdiv|].
    rewrite next_level_nth by lia.
    destruct (Nat.ltb_spec (2 * m + 1) (length l)); [|lia].
    rewrite Hjm. reflexivity.
  - (* the sibling is [j - 1], on the left *)
    assert (Hjm : j = (2 * m + 1)%nat).
    { destruct (j mod 2)%nat as [|[|r]] eqn:Hmod; [| lia | lia].
      exfalso. replace (Z.of_nat j) with (2 * Z.of_nat m)%Z in Hev by lia.
      rewrite Z.even_mul in Hev. discriminate. }
    exists (mkStep (nth (2 * m) l EmptyString) "left"). cbn [hash position].
    split; [replace (Z.of_nat j - 1)%Z with (Z.of_nat (2 * m)) by lia;
            apply py_index_nat, nth_error_nth'; lia|].
    split; [destruct (Z.ltb_spec (Z.of_nat j - 1) (Z.of_nat j)); [reflexivity | lia]|].
    split; [exact Hdiv|].
    rewrite next_level_nth by lia.
    destruct (Nat.ltb_spec (2 * m + 1) (length l)); [|lia].
    rewrite Hjm. reflexivity.
Qed.

Lemma proof_loop_with_siblings (l : list string) :
  forall (j : nat) (acc : list ProofStep),
    (j < length l)%nat ->
    siblings_present (_build_tree l) (Z.of_nat j) = true ->
    exists steps root,
      get_proof_loop (_build_tree l) (seq 0 (length (_build_tree l) - 1))
        (Z.of_nat j) acc = Ok (acc ++ steps) /\
      length steps = (length (_build_tree l) - 1)%nat /\
      last (_build_tree l) [] = [root] /\
      fold_left verify_step steps (nth j l EmptyString) = root.
Proof.
  induction l as [l Hl | l Hl IH] using build_tree_ind; intros j acc Hj Hsib.
  - rewrite build_tree_short by assumption.
    destruct l as [|x [|y l]]; cbn [length] in *; try lia.
    assert (j = 0%nat) by lia. subst j.
    exists [], x. rewrite app_nil_r. repeat split.
  - rewrite build_tree_step in * by assumption.
    assert (Hsib' : (Z.lxor (Z.of_nat j) 1 <? Z.of_nat (length l))%Z = true /\
                    siblings_present (_build_tree (next_level l)) (Z.of_nat j / 2) = true).
    { unfold _build_tree in Hsib at 1. cbn [siblings_present] in Hsib.
      apply andb_true_iff in Hsib. exact Hsib. }
    destruct Hsib' as [Hin Hrest].
    destruct (sibling_step_in_range l j Hj Hin) as (s & Hs & Hpos & Hdiv & Hup).
    assert (Hj2 : (j / 2 < length (next_level l))%nat).
    { apply nth_error_Some. congruence. }
    rewrite Hdiv in Hrest.
    destruct (IH (j / 2)%nat (acc ++ [s]) Hj2 Hrest)
      as (steps & root & Hloop & Hsteps & Hlast & Hfold).
    exists (s :: steps), root.
    assert (Hh : exists n, length (_build_tree (next_level l)) = S n)
      by (unfold _build_tree; cbn [length]; eauto).
    destruct Hh as [n Hn].
    cbn [length]. rewrite !Nat.sub_succ, !Nat.sub_0_r.
    rewrite Hn in *. rewrite Nat.sub_succ, Nat.sub_0_r in Hloop, Hsteps.
    split; [|split; [|split]].
    + cbn [seq get_proof_loop].
      rewrite (py_index_nat (l :: _build_tree (next_level l)) 0 l eq_refl).
      cbn [bind]. rewrite Hin, Hs. cbn [bind].
      rewrite get_proof_loop_shift, Hdiv.
      replace (mkStep (hash s) _) with s by (destruct s; cbn in *; now subst).
      rewrite Hloop, <- app_assoc. reflexivity.
    + cbn [length]. now rewrite Hsteps.
    + unfold _build_tree in Hlast |- *. exact Hlast.
    + cbn [fold_left]. rewrite <- Hfold. f_equal.
      apply nth_error_nth with (d := EmptyString) in Hup. now rewrite <- Hup.
Qed.

Lemma round_trip_core (self : MerkleTree) (index : Z) (item : pyval) (h : string) :
  tree self = _build_tree (leaves self) ->
  (0 <= index)%Z ->
  nth_error (leaves self) (Z.to_nat index) = Some h ->
  _hash_data item = Ok h ->
  siblings_present (tree self) index = true ->
  exists proof root,
    get_proof self index = Ok proof /\
    length proof = (get_tree_height self - 1)%nat /\
    get_root self = Ok (Some root) /\
    verify_proof item proof (Some root) = Ok true.
Proof.
  intros Htree Hlo Hh Hhash Hsib.
  assert (Hj : (Z.to_nat index < length (leaves self))%nat)
    by (apply nth_error_Some; congruence).
  rewrite Htree, <- (Z2Nat.id index) in Hsib by lia.
  destruct (proof_loop_with_siblings (leaves self) (Z.to_nat index) [] Hj Hsib)
    as (steps & root & Hloop & Hsteps & Hlast & Hfold).
  exists steps, root.
  split.
  { unfold get_proof.
    destruct (Z.ltb_spec index 0) as [?|_]; [lia|].
    destruct (Z.geb_spec index (Z.of_nat (length (leaves self)))) as [?|_]; [lia|].
    cbn [orb]. rewrite Htree. rewrite <- (Z2Nat.id index) at 1 by lia. exact Hloop. }
  split; [unfold get_tree_height; now rewrite Htree|].
  split; [apply get_root_top; now rewrite Htree|].
  unfold verify_proof. rewrite Hhash. cbn [bind].
  apply nth_error_nth with (d := EmptyString) in Hh.
  rewrite Hh in Hfold. rewrite Hfold, String.eqb_refl. reflexivity.
Qed.

(** X15.  For any number of leaves: when the node above the leaf has its
    sibling at every level below the top, [get_proof] returns
    [height - 1] steps and [verify_proof] accepts the item with them
    against [get_root()]. *)
Theorem round_trip_with_siblings
    (items : list pyval) (self : MerkleTree) (index : Z) :
  __init__ items = Ok self ->
  (0 <= index < Z.of_nat (length items))%Z ->
  siblings_present (tree self) index = true ->
  exists item proof root,
    py_index items index = Ok item /\
    get_proof self index = Ok proof /\
    length proof = (get_tree_height self - 1)%nat /\
    get_root self = Ok root /\
    verify_proof item proof root = Ok true.
Proof.
  intros Hinit Hidx Hsib.
  apply init_inv in Hinit as [Hmap Htree]. apply mapM_Forall2 in Hmap.
  destruct (nth_error items (Z.to_nat index)) as [item|] eqn:Hitem;
    [|apply nth_error_None in Hitem; lia].
  destruct (Forall2_nth_error_left _ items (leaves self) _ item Hmap Hitem)
    as (h & Hh & Hhash).
  destruct (round_trip_core self index item h Htree ltac:(lia) Hh Hhash Hsib)
    as (proof & root & Hp & Hlen & Hroot & Hv).
  exists item, proof, (Some root).
  split; [apply py_index_nonneg; [lia | exact Hitem]|]. auto.
Qed.

Lemma round_trip_with_siblings_witness :
  exists item proof root,
    py_index demo_abc 1 = Ok item /\
    get_proof (built demo_abc) 1 = Ok proof /\
    length proof = (get_tree_height (built demo_abc) - 1)%nat /\
    get_root (built demo_abc) = Ok root /\
    verify_proof item proof root = Ok true.
Proof.
  apply (round_trip_with_siblings demo_abc (built demo_abc) 1).
  - apply init_built. reflexivity.
  - simpl. lia.
  - vm_compute. reflexivity.
Defined.

Lemma siblings_present_first (l : list string) :
  siblings_present (_build_tree l) 0 = true.
Proof.
  induction l as [l Hl | l Hl IH] using build_tree_ind.
  - now rewrite build_tree_short.
  - rewrite build_tree_step by assumption.
    unfold _build_tree at 1. cbn [siblings_present].
    apply andb_true_iff. split; [apply Z.ltb_lt; cbn; lia | exact IH].
Qed.

(** X16.  The proof of the first item is accepted whatever the number of
    items. *)
Theorem first_item_round_trip
    (item : pyval) (items : list pyval) (self : MerkleTree) :
  __init__ (item :: items) = Ok self ->
  exists proof root,
    get_proof self 0 = Ok proof /\
    get_root self = Ok root /\
    verify_proof item proof root = Ok true.
Proof.
  intros Hinit.
  apply init_inv in Hinit as [Hmap Htree]. apply mapM_Forall2 in Hmap.
  destruct (Forall2_nth_error_left _ (item :: items) (leaves self) 0 item Hmap eq_refl)
    as (h & Hh & Hhash).
  destruct (round_trip_core self 0 item h Htree ltac:(lia)) as
    (proof & root & Hp & _ & Hroot & Hv).
  - exact Hh.
  - exact Hhash.
  - rewrite Htree. apply siblings_present_first.
  - exists proof, (Some root). auto.
Qed.

Lemma first_item_round_trip_witness :
  exists proof root,
    get_proof (built demo_abc) 0 = Ok proof /\
    get_root (built demo_abc) = Ok root /\
    verify_proof (PStr "a") proof root = Ok true.
Proof.
  apply (first_item_round_trip (PStr "a") [PStr "b"; PStr "c"] (built demo_abc)).
  apply init_built. reflexivity.
Defined.

(** X17.  After a successful [update_leaf], the new value is accepted at
    [index] with the proof and the root of the updated tree, when the
    nodes above that leaf have their siblings. *)
Theorem update_then_round_trip
    (self self' : MerkleTree) (index : Z) (new_value : pyval) :
  update_leaf self index new_value = (Ok tt, self') ->
  siblings_present (tree self') index = true ->
  exists proof root,
    get_proof self' index = Ok proof /\
    get_root self' = Ok root /\
    verify_proof new_value proof root = Ok true.
Proof.
  intros Hup Hsib.
  apply update_leaf_inv in Hup as (Hidx & h & Hh & Hl & Ht).
  destruct (round_trip_core self' index new_value h Ht ltac:(lia)) as
    (proof & root & Hp & _ & Hroot & Hv).
  - rewrite Hl, py_setitem_nth by lia. now rewrite Nat.eqb_refl.
  - exact Hh.
  - exact Hsib.
  - exists proof, (Some root). auto.
Qed.

Lemma update_then_round_trip_witness :
  exists proof root,
    get_proof (snd (update_leaf (built demo_abcd) 2 (PStr "z"))) 2 = Ok proof /\
    get_root (snd (update_leaf (built demo_abcd) 2 (PStr "z"))) = Ok root /\
    verify_proof (PStr "z") proof root = Ok true.
Proof.
  apply (update_then_round_trip (built demo_abcd)).
  - vm_compute. reflexivity.
  - vm_compute. reflexivity.
Defined.

(** ** The form of a hash *)

Lemma be_bytes_length (n : nat) (x : Z) : length (SHA256.be_bytes n x) = n.
Proof. induction n as [|n IH]; cbn [SHA256.be_bytes length]; congruence. Qed.

Lemma be_bytes_range (n : nat) (x : Z) :
  Forall (fun b => (0 <= b < 256)%Z) (SHA256.be_bytes n x).
Proof.
  induction n as [|n IH]; cbn [SHA256.be_bytes]; constructor; [|exact IH].
  apply Z.mod_pos_bound. lia.
Qed.

Lemma round_length (st : list Z) (k w : Z) :
  length st = 8%nat -> length (SHA256.round st k w) = 8%nat.
Proof.
  destruct st as [|a [|b [|c [|d [|e [|f [|g [|h [|i r]]]]]]]]]; try discriminate.
  reflexivity.
Qed.

Lemma rounds_length (ks : list Z) :
  forall win st, length st = 8%nat -> length (SHA256.rounds ks win st) = 8%nat.
Proof.
  induction ks as [|k ks IH]; intros win st Hst; cbn [SHA256.rounds]; [exact Hst|].
  apply IH. now apply round_length.
Qed.

Lemma add_words_length (xs ys : list Z) :
  length xs = length ys -> length (SHA256.add_words xs ys) = length xs.
Proof.
  revert ys. induction xs as [|x xs IH]; intros [|y ys] H; try discriminate;
    cbn [SHA256.add_words length]; [reflexivity|].
  f_equal. apply IH. now injection H.
Qed.

Lemma blocks_length (fuel : nat) :
  forall ws h, length h = 8%nat -> length (SHA256.blocks fuel ws h) = 8%nat.
Proof.
  induction fuel as [|fuel IH]; intros ws h Hh; cbn [SHA256.blocks]; [exact Hh|].
  destruct ws as [|w ws]; [exact Hh|].
  apply IH. unfold SHA256.compress.
  rewrite add_words_length; [exact Hh|].
  rewrite rounds_length; [now symmetry | exact Hh].
Qed.

Lemma flat_map_be_bytes (ws : list Z) :
  length (flat_map (SHA256.be_bytes 4) ws) = (4 * length ws)%nat /\
  Forall (fun b => (0 <= b < 256)%Z) (flat_map (SHA256.be_bytes 4) ws).
Proof.
  induction ws as [|w ws [IHl IHr]]; [split; [reflexivity | constructor]|].
  cbn [flat_map]. split.
  - rewrite length_app, be_bytes_length, IHl. cbn [length]. lia.
  - apply Forall_app. split; [apply be_bytes_range | exact IHr].
Qed.

Lemma digest_bytes (msg : list Z) :
  length (SHA256.digest msg) = 32%nat /\
  Forall (fun b => (0 <= b < 256)%Z) (SHA256.digest msg).
Proof.
  unfold SHA256.digest.
  destruct (flat_map_be_bytes
              (SHA256.blocks
                 (length (SHA256.words (length (SHA256.pad msg)) (SHA256.pad msg)))
                 (SHA256.words (length (SHA256.pad msg)) (SHA256.pad msg)) SHA256.H0))
    as [Hl Hr].
  split; [|exact Hr].
  rewrite Hl, blocks_length; reflexivity.
Qed.

Lemma hex_digit_lower (d : Z) :
  (0 <= d < 16)%Z -> is_lower_hex (SHA256.hex_digit d) = true.
Proof.
  intros Hd.
  assert (H : (d = 0 \/ d = 1 \/ d = 2 \/ d = 3 \/ d = 4 \/ d = 5 \/ d = 6 \/ d = 7 \/
               d = 8 \/ d = 9 \/ d = 10 \/ d = 11 \/ d = 12 \/ d = 13 \/ d = 14 \/
               d = 15)%Z) by lia.
  repeat (destruct H as [->|H]; [reflexivity|]). subst d. reflexivity.
Qed.

Lemma hex_is_hex (bs : list Z) :
  Forall (fun b => (0 <= b < 256)%Z) bs ->
  String.length (SHA256.hex bs) = (2 * length bs)%nat /\
  Forall (fun c => is_lower_hex c = true) (list_ascii_of_string (SHA256.hex bs)).
Proof.
  induction 1 as [|b bs Hb _ [IHl IHr]]; [split; [reflexivity | constructor]|].
  cbn [SHA256.hex String.length list_ascii_of_string length]. split; [lia|].
  constructor; [apply hex_digit_lower|constructor; [apply hex_digit_lower | exact IHr]].
  - split; [apply Z.div_pos; lia | apply Z.div_lt_upper_bound; lia].
  - apply Z.mod_pos_bound. lia.
Qed.

Lemma hexdigest_is_hash (b : string) : is_hash (SHA256.hexdigest b).
Proof.
  unfold is_hash, SHA256.hexdigest.
  destruct (digest_bytes (SHA256.bytes_of_string b)) as [Hl Hr].
  destruct (hex_is_hex _ Hr) as [Hhl Hhr].
  split; [rewrite Hhl, Hl; reflexivity | exact Hhr].
Qed.

Lemma hash_data_is_hash (data : pyval) (h : string) :
  _hash_data data = Ok h -> is_hash h.
Proof.
  destruct data; cbn [_hash_data]; intros H; try discriminate;
    injection H as <-; apply hexdigest_is_hash.
Qed.

Lemma next_level_hashes (l : list string) : Forall is_hash (next_level l).
Proof.
  induction l as [| x | x y l IH] using list_pair_ind.
  - constructor.
  - repeat constructor; apply hexdigest_is_hash.
  - change (next_level (x :: y :: l)) with (hash_str (x ++ y) :: next_level l).
    constructor; [apply hexdigest_is_hash | exact IH].
Qed.

Lemma build_tree_hashes (l : list string) :
  Forall is_hash l -> Forall (Forall is_hash) (_build_tree l).
Proof.
  induction l as [l Hl | l Hl IH] using build_tree_ind; intros Hall.
  - rewrite build_tree_short by assumption. now repeat constructor.
  - rewrite build_tree_step by assumption.
    constructor; [exact Hall | apply IH, next_level_hashes].
Qed.

(** X18.  Every node of a constructed tree, the leaves and the root
    included, is a string of 64 lowercase hexadecimal digits. *)
Theorem tree_nodes_are_hashes (items : list pyval) (self : MerkleTree) :
  __init__ items = Ok self ->
  Forall is_hash (leaves self) /\
  (forall lvl h, In lvl (tree self) -> In h lvl -> is_hash h) /\
  (forall root, get_root self = Ok (Some root) -> is_hash root).
Proof.
  intros Hinit. apply init_inv in Hinit as [Hmap Htree].
  apply mapM_Forall2 in Hmap.
  assert (Hleaves : Forall is_hash (leaves self)).
  { clear Htree. induction Hmap as [|a h l l' Hh _ IH]; constructor; [|exact IH].
    now apply (hash_data_is_hash a). }
  pose proof (build_tree_hashes (leaves self) Hleaves) as Hall.
  rewrite <- Htree in Hall.
  assert (Hnodes : forall lvl h, In lvl (tree self) -> In h lvl -> is_hash h).
  { intros lvl h Hlvl Hh. rewrite Forall_forall in Hall.
    specialize (Hall lvl Hlvl). rewrite Forall_forall in Hall. now apply Hall. }
  split; [exact Hleaves|]. split; [exact Hnodes|].
  intros root Hroot. unfold get_root in Hroot.
  destruct (tree self) as [|x t] eqn:Et; [discriminate|].
  destruct (py_index (x :: t) (-1)) as [top|e] eqn:Htop; [|discriminate].
  cbn [bind] in Hroot.
  destruct (py_index top 0) as [r|e] eqn:Hr; [|discriminate].
  cbn [bind] in Hroot. injection Hroot as <-.
  apply (Hnodes top r); eapply py_index_In; eassumption.
Qed.

Lemma tree_nodes_are_hashes_witness :
  Forall is_hash (leaves (built demo_abc)).
Proof.
  apply (tree_nodes_are_hashes demo_abc (built demo_abc)).
  apply init_built. reflexivity.
Defined.

(** ** Trees of records (question6.py) *)

Lemma same_item_hash (a b : pyval) :
  same_item a b -> Question6._hash_data a = Question6._hash_data b.
Proof.
  intros [v | d1 d2 Hnd Hperm]; [reflexivity|].
  cbn [Question6._hash_data]. unfold JSON.dumps.
  now rewrite (sort_items_permutation_invariant d1 d2).
Qed.

(** X19.  Two lists of items that differ only in the order in which the
    keys of their records were entered give the same tree, hence the same
    root and the same proofs. *)
Theorem record_trees_equal (items1 items2 : list pyval) :
  Forall2 same_item items1 items2 ->
  Question6Tree.__init__ items1 = Question6Tree.__init__ items2.
Proof.
  intros H. unfold Question6Tree.__init__.
  assert (E : mapM Question6._hash_data items1 = mapM Question6._hash_data items2).
  { induction H as [|a b l l' Hab _ IH]; [reflexivity|].
    cbn [mapM]. now rewrite (same_item_hash a b Hab), IH. }
  now rewrite E.
Qed.

Lemma record_trees_equal_witness :
  Question6Tree.__init__
    [PDict [("id", JInt 1); ("name", JStr "Alice")]%string; PStr "b"]
  = Question6Tree.__init__
    [PDict [("name", JStr "Alice"); ("id", JInt 1)]%string; PStr "b"].
Proof.
  apply record_trees_equal.
  constructor; [|constructor; [apply same_refl | constructor]].
  apply same_record.
  - repeat constructor; cbn; intuition discriminate.
  - apply perm_swap.
Defined.

(** ** The last leaf of an odd number of leaves *)

(** X20.  With an odd number of items, three or more, the proof of the
    last item has fewer than [height - 1] steps: the level where the
    builder paired the leaf with itself contributes none. *)
Theorem last_odd_leaf_proof_is_short (items : list pyval) (self : MerkleTree) :
  __init__ items = Ok self ->
  Nat.Odd (length items) -> (3 <= length items)%nat ->
  exists proof,
    get_proof self (Z.of_nat (length items) - 1) = Ok proof /\
    (length proof < get_tree_height self - 1)%nat.
Proof.
  intros Hinit Hodd Hlen.
  pose proof (init_leaves_length items self Hinit) as Hl.
  pose proof Hinit as Hinv. apply init_inv in Hinv as [_ Htree].
  set (index := (Z.of_nat (length items) - 1)%Z).
  destruct (get_proof_in_range self index ltac:(subst index; lia)) as [proof Hproof].
  exists proof. split; [exact Hproof|].
  destruct (get_proof_first_step items self index proof Hinit Hproof) as [_ Hnone].
  assert (H0 : nth_error (tree self) 0 = Some (leaves self))
    by (rewrite Htree; apply build_tree_level0).
  rewrite (find_sibling_in_range self index H0) in Hnone by (subst index; lia).
  assert (Hx : Z.lxor index 1 = (index + 1)%Z).
  { destruct (lxor_1_cases index ltac:(subst index; lia)) as [[_ Hx]|[Hev _]];
      [exact Hx|].
    exfalso. destruct Hodd as [k Hk]. subst index. rewrite Hk in Hev.
    replace (Z.of_nat (2 * k + 1) - 1)%Z with (2 * Z.of_nat k)%Z in Hev by lia.
    rewrite Z.even_mul in Hev. discriminate. }
  assert (Hshort : (length proof <= get_tree_height self - 2)%nat).
  { apply Hnone. f_equal. apply nth_error_None. rewrite Hx. subst index. lia. }
  assert (Hheight : (2 <= get_tree_height self)%nat).
  { unfold get_tree_height. rewrite Htree, build_tree_step by lia.
    unfold _build_tree. cbn [length]. lia. }
  lia.
Qed.

Lemma last_odd_leaf_proof_is_short_witness :
  exists proof,
    get_proof (built demo_abc) (Z.of_nat (length demo_abc) - 1) = Ok proof /\
    (length proof < get_tree_height (built demo_abc) - 1)%nat.
Proof.
  apply (last_odd_leaf_proof_is_short demo_abc (built demo_abc)).
  - apply init_built. reflexivity.
  - exists 1%nat. reflexivity.
  - simpl. lia.
Defined.
